(** * A shallow embedding of the MF-ing-api cache and search layer

    Sources: [background/nav_redis.py] (the Redis cache [AMFINavCache]),
    [background/search.py] (the autocomplete client
    [AMFINavCacheSearchClient]) and [app.py] (the FastAPI boundary).

    The Redis store is a map from keys to values (strings, sets, and the
    suggestion dictionaries of the RediSearch autocompleters).  Every
    command the code issues is a step of a small state-and-error monad: a
    command that raises leaves the store as it found it, while the effects
    of the commands that ran before it are kept, as in Redis. *)

From stdpp Require Import base gmap sets list strings sorting.
From Stdlib Require Import Ascii ZArith Sorted Lia.

Local Open Scope stdpp_scope.

(* ------------------------------------------------------------------ *)
(** ** Errors and the state-and-error monad *)

Inductive error :=
  | WrongType                       (* Redis WRONGTYPE reply *)
  | WrongArity (cmd : string)       (* Redis "wrong number of arguments" *)
  | FundKeyNotFound (key : string)  (* FundKeyNotFoundError *)
  | FundHouseKeyNotFound (key : string) (* FundHouseKeyNotFoundError *)
  | InvalidQueryType (q : string)   (* InvalidQueryTypeError *)
  | DecodeError                     (* amfi.deserialize_fund failing *)
  | ZeroDivision                    (* Python ZeroDivisionError *)
  | UnicodeDecodeError              (* bytes.decode() on bytes that are not UTF-8 *)
  | RequestValidation (loc : list string) (* FastAPI's RequestValidationError *)
  | HTTPException (status : Z) (detail : string).

Inductive res (A : Type) := Ok (a : A) | Err (e : error).
Arguments Ok {A} a.
Arguments Err {A} e.

(** A Redis value. *)
Inductive value :=
  | VStr (s : string)          (* SET / GET *)
  | VSet (s : gset string)     (* SADD / SMEMBERS *)
  | VSug (l : list string).    (* FT.SUGADD / FT.SUGGET dictionary *)

Abbreviation store := (gmap string value).

Definition M (A : Type) : Type := store -> store * res A.

Definition ret {A} (a : A) : M A := fun st => (st, Ok a).
Definition raise {A} (e : error) : M A := fun st => (st, Err e).
Definition bind {A B} (m : M A) (k : A -> M B) : M B :=
  fun st => match m st with
            | (st', Ok a) => k a st'
            | (st', Err e) => (st', Err e)
            end.

Notation "'let!' x := m 'in' k" := (bind m (fun x => k))
  (at level 200, x name, m at level 100, k at level 200).
Notation "m ;;; k" := (bind m (fun _ => k))
  (at level 100, k at level 200, right associativity).

(* ------------------------------------------------------------------ *)
(** ** Redis commands (redis-py client) *)

(** [r.set(key, value)]: overwrites whatever the key held. *)
Definition r_set (k v : string) : M unit :=
  fun st => (<[k := VStr v]> st, Ok tt).

(** [r.get(key)]: [None] for an absent key. *)
Definition r_get (k : string) : M (option string) :=
  fun st => match st !! k with
            | None => (st, Ok None)
            | Some (VStr s) => (st, Ok (Some s))
            | Some _ => (st, Err WrongType)
            end.

(** [r.sadd(key, *members)]: Redis refuses SADD without a member. *)
Definition r_sadd (k : string) (members : list string) : M unit :=
  fun st => match members with
            | [] => (st, Err (WrongArity "sadd"))
            | _ =>
              match st !! k with
              | None => (<[k := VSet (list_to_set members)]> st, Ok tt)
              | Some (VSet s) => (<[k := VSet (s ∪ list_to_set members)]> st, Ok tt)
              | Some _ => (st, Err WrongType)
              end
            end.

(** [r.smembers(key)]: an absent key reads as the empty set. *)
Definition r_smembers (k : string) : M (gset string) :=
  fun st => match st !! k with
            | None => (st, Ok ∅)
            | Some (VSet s) => (st, Ok s)
            | Some _ => (st, Err WrongType)
            end.

(** [r.keys(pattern)] for a pattern [<p>*] without glob metacharacters in
    [p]: the keys that start with [p], in the store's own order. *)
Definition r_keys_prefix (p : string) : M (list string) :=
  fun st => (st, Ok (filter (fun k => String.prefix p k = true)
                            (map fst (map_to_list st)))).

(** [AutoCompleter(key).add_suggestions(Suggestion(s, w))] is FT.SUGADD:
    re-adding a string already in the dictionary only resets its score. *)
Definition ft_sugadd (ack s : string) : M unit :=
  fun st => match st !! ack with
            | None => (<[ack := VSug [s]]> st, Ok tt)
            | Some (VSug l) =>
              if decide (s ∈ l) then (st, Ok tt)
              else (<[ack := VSug (l ++ [s])]> st, Ok tt)
            | Some _ => (st, Err WrongType)
            end.

(* ------------------------------------------------------------------ *)
(** ** Python string operations used by the code *)

Fixpoint str_drop (n : nat) (s : string) : string :=
  match n, s with
  | O, _ => s
  | S n', String _ s' => str_drop n' s'
  | S _, EmptyString => EmptyString
  end.

(** [pat in s]. *)
Fixpoint str_contains (pat s : string) : bool :=
  String.prefix pat s ||
  match s with
  | EmptyString => false
  | String _ s' => str_contains pat s'
  end.

(** Left-to-right, non-overlapping replacement of a non-empty [old];
    [fuel] bounds the number of characters still to scan. *)
Fixpoint replace_aux (fuel : nat) (old new s : string) : string :=
  match fuel with
  | O => s
  | S fuel' =>
    match s with
    | EmptyString => EmptyString
    | String c s' =>
      if String.prefix old s
      then new +:+ replace_aux fuel' old new (str_drop (String.length old) s)
      else String c (replace_aux fuel' old new s')
    end
  end.

(** [s.replace(old, new)].  With an empty [old] Python inserts [new]
    before every character and at the end. *)
Fixpoint replace_empty (new s : string) : string :=
  match s with
  | EmptyString => new
  | String c s' => new +:+ String c (replace_empty new s')
  end.

Definition py_replace (s old new : string) : string :=
  match old with
  | EmptyString => replace_empty new s
  | _ => replace_aux (S (String.length s)) old new s
  end.

(** [bytes.decode()] with Python's strict UTF-8 codec.  A [str] is
    represented by its UTF-8 bytes, so decoding is the identity on
    well-formed input and raises on anything else.  The well-formed
    sequences are those of table 3-7 of the Unicode standard (no overlong
    forms, no surrogates, nothing above U+10FFFF), which is exactly what
    the codec accepts.  On this representation, comparing bytes compares
    code points, and an ASCII pattern such as [FUND:] occurs exactly where
    it occurs in the decoded text. *)
Definition byte_in (c : ascii) (lo hi : N) : bool :=
  (lo <=? N_of_ascii c)%N && (N_of_ascii c <=? hi)%N.

Fixpoint utf8_valid (s : string) : bool :=
  match s with
  | EmptyString => true
  | String c s1 =>
    if byte_in c 0 127 then utf8_valid s1
    else match s1 with
    | EmptyString => false
    | String c1 s2 =>
      if byte_in c 194 223 then byte_in c1 128 191 && utf8_valid s2
      else match s2 with
      | EmptyString => false
      | String c2 s3 =>
        if byte_in c 224 239 then
          byte_in c1 (if (N_of_ascii c =? 224)%N then 160 else 128)
                     (if (N_of_ascii c =? 237)%N then 159 else 191) &&
          byte_in c2 128 191 && utf8_valid s3
        else match s3 with
        | EmptyString => false
        | String c3 s4 =>
          byte_in c 240 244 &&
          byte_in c1 (if (N_of_ascii c =? 240)%N then 144 else 128)
                     (if (N_of_ascii c =? 244)%N then 143 else 191) &&
          byte_in c2 128 191 && byte_in c3 128 191 && utf8_valid s4
        end
      end
    end
  end.

(** [s.split(d)] for a one-character separator [d]. *)
Fixpoint py_split_char (d : ascii) (s : string) : list string :=
  match s with
  | EmptyString => [EmptyString]
  | String c s' =>
    let parts := py_split_char d s' in
    if Ascii.eqb c d then EmptyString :: parts
    else match parts with
         | p :: ps => String c p :: ps
         | [] => [String c EmptyString]
         end
  end.

(* ------------------------------------------------------------------ *)
(** ** Key space (nav_redis.py, module constants) *)

Definition SCHEME_TYPE_PREFIX := "SCHEME_TYPE".
Definition SCHEME_SUB_TYPE_PREFIX := "SCHEME_SUB_TYPE".
Definition SCHEME_SUB_TYPE_FUND_HOUSE_PREFIX := "SCHEME_SUB_TYPE_FUND_HOUSE".
Definition FUND_HOUSE_PREFIX := "FUND_HOUSE".
Definition FUND_PREFIX := "FUND".
Definition PREFIX_DELIMTER := ":".
Definition PREFIX_DELIMTER_CHAR : ascii := ":"%char.

Definition FUND_HOUSE_AUTOCOMPLETER_KEY := "fund_house_ac".
Definition FUND_AUTOCOMPLETER_KEY := "fund_ac".
Definition SCHEME_SUB_TYPE_AUTOCOMPLETER_KEY := "scheme_sub_type_ac".
Definition SCHEME_SUB_TYPE_FUND_HOUSE_AUTOCOMPLETER_KEY := "scheme_sub_type_fund_house_ac".

(** [replace_prefix = lambda prefix, item:
      str(item).replace(f'{prefix}{PREFIX_DELIMTER}', '')] *)
Definition replace_prefix (prefix item : string) : string :=
  py_replace item (prefix +:+ PREFIX_DELIMTER) EmptyString.

(* ------------------------------------------------------------------ *)
(** ** Fund records *)

(** [amfi.Fund], with the three attributes the rebuild stamps on it. *)
Record fund := mkFund {
  SchemeCode : string;
  SchemeName : string;
  ISINDivPayoutGrowth : string;
  ISINDivReinvestment : string;
  NAV : string;
  Date : string;
  SchemeType : string;
  SchemeSubType : string;
  SchemeFundHouse : string
}.

(** [fund.SchemeType = ...; fund.SchemeSubType = ...;
     fund.SchemeFundHouse = ...] in [_async_update_mf_cache]. *)
Definition stamp (f : fund) (t sub house : string) : fund :=
  {| SchemeCode := SchemeCode f; SchemeName := SchemeName f;
     ISINDivPayoutGrowth := ISINDivPayoutGrowth f;
     ISINDivReinvestment := ISINDivReinvestment f;
     NAV := NAV f; Date := Date f;
     SchemeType := t; SchemeSubType := sub; SchemeFundHouse := house |}.

(* ------------------------------------------------------------------ *)
(** ** Serialization of fund records *)

Definition QUOTE : ascii := Ascii.ascii_of_nat 34.
Definition BACKSLASH : ascii := Ascii.ascii_of_nat 92.

Fixpoint json_escape (s : string) : string :=
  match s with
  | EmptyString => EmptyString
  | String c s' =>
    if Ascii.eqb c QUOTE || Ascii.eqb c BACKSLASH
    then String BACKSLASH (String c (json_escape s'))
    else String c (json_escape s')
  end.

Definition json_member (kv : string * string) : string :=
  String QUOTE (json_escape kv.1) +:+ String QUOTE ":" +:+ " " +:+
  String QUOTE (json_escape kv.2) +:+ String QUOTE EmptyString.

Fixpoint json_members (l : list (string * string)) : string :=
  match l with
  | [] => EmptyString
  | [kv] => json_member kv
  | kv :: l' => json_member kv +:+ ", " +:+ json_members l'
  end.

Definition json_object (l : list (string * string)) : string :=
  "{" +:+ json_members l +:+ "}".

(** The body of a string literal after its opening quote: the literal's
    value and the text after its closing quote. *)
Fixpoint parse_str (s : string) : option (string * string) :=
  match s with
  | EmptyString => None
  | String c s' =>
    if Ascii.eqb c QUOTE then Some (EmptyString, s')
    else if Ascii.eqb c BACKSLASH then
      match s' with
      | EmptyString => None
      | String c2 s'' =>
        match parse_str s'' with
        | Some (v, r) => Some (String c2 v, r)
        | None => None
        end
      end
    else match parse_str s' with
         | Some (v, r) => Some (String c v, r)
         | None => None
         end
  end.

Fixpoint expect (lit s : string) : option string :=
  match lit, s with
  | EmptyString, _ => Some s
  | String c lit', String c' s' => if Ascii.eqb c c' then expect lit' s' else None
  | String _ _, EmptyString => None
  end.

Fixpoint parse_members (fuel : nat) (s : string)
    : option (list (string * string)) :=
  match fuel with
  | O => None
  | S fuel' =>
    r1 ← expect (String QUOTE EmptyString) s;
    '(k, r2) ← parse_str r1;
    r3 ← expect (":" +:+ " " +:+ String QUOTE EmptyString) r2;
    '(v, r4) ← parse_str r3;
    match expect ", " r4 with
    | Some r5 => rest ← parse_members fuel' r5; Some ((k, v) :: rest)
    | None =>
      r6 ← expect "}" r4;
      match r6 with EmptyString => Some [(k, v)] | _ => None end
    end
  end.

Definition parse_object (s : string) : option (list (string * string)) :=
  r ← expect "{" s;
  match r with
  | String "}" EmptyString => Some []
  | _ => parse_members (String.length r) r
  end.

(** Python dict semantics of a decoded object: the last binding wins. *)
Definition dict_get (k : string) (l : list (string * string)) : option string :=
  foldl (fun acc kv => if String.eqb kv.1 k then Some kv.2 else acc) None l.

Definition fund_fields : list string :=
  ["SchemeCode"; "SchemeName"; "ISINDivPayoutGrowth"; "ISINDivReinvestment";
   "NAV"; "Date"; "SchemeType"; "SchemeSubType"; "SchemeFundHouse"].

Definition fund_members (f : fund) : list (string * string) :=
  [("SchemeCode", SchemeCode f); ("SchemeName", SchemeName f);
   ("ISINDivPayoutGrowth", ISINDivPayoutGrowth f);
   ("ISINDivReinvestment", ISINDivReinvestment f);
   ("NAV", NAV f); ("Date", Date f); ("SchemeType", SchemeType f);
   ("SchemeSubType", SchemeSubType f); ("SchemeFundHouse", SchemeFundHouse f)].

(** Modelled from the spec: [amfi.serialize_fund] (the [amfi] module is
    not among the sources).  The spec: records are serialized "as a flat
    structured record (field-for-field, no nesting) in a textual
    self-describing format"; here a JSON object of string fields. *)
Definition serialize_fund (f : fund) : string := json_object (fund_members f).

(** Modelled from the spec: [amfi.deserialize_fund], the inverse reading
    of the same textual format, building a record from its named fields
    (keyword construction of [Fund]: a missing or an unknown field is an error). *)
Definition deserialize_fund (s : string) : option fund :=
  l ← parse_object s;
  if forallb (fun kv => bool_decide (kv.1 ∈ fund_fields)) l then
    c ← dict_get "SchemeCode" l; n ← dict_get "SchemeName" l;
    g ← dict_get "ISINDivPayoutGrowth" l; r ← dict_get "ISINDivReinvestment" l;
    v ← dict_get "NAV" l; d ← dict_get "Date" l; t ← dict_get "SchemeType" l;
    st ← dict_get "SchemeSubType" l; h ← dict_get "SchemeFundHouse" l;
    Some (mkFund c n g r v d t st h)
  else None.

(* ------------------------------------------------------------------ *)
(** ** AMFINavCache (nav_redis.py) *)

Definition _add_scheme_type (scheme_type : string) (scheme_sub_types : list string)
    : M unit :=
  let scheme_type_key := SCHEME_TYPE_PREFIX +:+ PREFIX_DELIMTER +:+ scheme_type in
  r_sadd scheme_type_key scheme_sub_types.

Definition _add_scheme_sub_type (scheme_type scheme_sub_type : string)
    (fund_house_names : list string) : M unit :=
  let scheme_sub_type_key := SCHEME_SUB_TYPE_PREFIX +:+ PREFIX_DELIMTER +:+
        scheme_type +:+ PREFIX_DELIMTER +:+ scheme_sub_type in
  r_sadd scheme_sub_type_key fund_house_names ;;;
  ft_sugadd SCHEME_SUB_TYPE_AUTOCOMPLETER_KEY scheme_sub_type_key.

Definition _add_fund_house_under_sub_type (scheme_sub_type fund_house_name : string)
    (fund_scheme_names : list string) : M unit :=
  let scheme_sub_type_fund_house_key := SCHEME_SUB_TYPE_FUND_HOUSE_PREFIX +:+
        PREFIX_DELIMTER +:+ scheme_sub_type +:+ PREFIX_DELIMTER +:+ fund_house_name in
  r_sadd scheme_sub_type_fund_house_key fund_scheme_names ;;;
  ft_sugadd SCHEME_SUB_TYPE_FUND_HOUSE_AUTOCOMPLETER_KEY scheme_sub_type_fund_house_key.

Definition _add_fund_house (fund_house_name : string) (fund_scheme_names : list string)
    : M unit :=
  let fund_house_key := FUND_HOUSE_PREFIX +:+ PREFIX_DELIMTER +:+ fund_house_name in
  r_sadd fund_house_key fund_scheme_names ;;;
  ft_sugadd FUND_HOUSE_AUTOCOMPLETER_KEY fund_house_key.

Definition _set_fund (f : fund) : M unit :=
  let serialized := serialize_fund f in
  let fund_key := FUND_PREFIX +:+ PREFIX_DELIMTER +:+ SchemeName f in
  r_set fund_key serialized ;;;
  ft_sugadd FUND_AUTOCOMPLETER_KEY fund_key.

(** A coroutine object collected in [redis_futures]: the call is made
    when the batch is awaited, not when it is created. *)
Inductive cache_op :=
  | SetFund (f : fund)
  | AddFundHouseUnderSubType (sub house : string) (names : list string)
  | AddFundHouse (house : string) (names : list string)
  | AddSchemeSubType (t sub : string) (houses : list string)
  | AddSchemeType (t : string) (subs : list string).

Definition run_op (o : cache_op) : M unit :=
  match o with
  | SetFund f => _set_fund f
  | AddFundHouseUnderSubType sub h names => _add_fund_house_under_sub_type sub h names
  | AddFundHouse h names => _add_fund_house h names
  | AddSchemeSubType t sub hs => _add_scheme_sub_type t sub hs
  | AddSchemeType t subs => _add_scheme_type t subs
  end.

(** Awaiting [asyncio.gather] over all of [redis_futures].  None of the coroutines
    suspends (the redis-py calls are synchronous), so the tasks run one
    after the other in creation order, each to its end; a task that raises
    does not stop the later ones, and gather reports the first exception. *)
Fixpoint gather (ops : list cache_op) : M unit :=
  match ops with
  | [] => ret tt
  | o :: ops' => fun st =>
    let '(st1, r1) := run_op o st in
    let '(st2, r2) := gather ops' st1 in
    (st2, match r1 with Err e => Err e | Ok _ => r2 end)
  end.

(** The value returned by [amfi.get_all_mfs()]: scheme type -> scheme
    sub type -> fund house -> funds, each dict in its iteration order. *)
Abbreviation snapshot :=
  (list (string * list (string * list (string * list fund)))).

(** The innermost loop body and the statements after it. *)
Definition fund_house_ops (t sub house : string) (funds : list fund) : list cache_op :=
  let fund_list := map SchemeName funds in
  map (fun f => SetFund (stamp f t sub house)) funds ++
  [AddFundHouseUnderSubType sub house fund_list; AddFundHouse house fund_list].

Definition scheme_sub_type_ops (t sub : string)
    (fund_houses : list (string * list fund)) : list cache_op :=
  concat (map (fun hf => fund_house_ops t sub hf.1 hf.2) fund_houses) ++
  [AddSchemeSubType t sub (map fst fund_houses)].

Definition scheme_type_ops (t : string)
    (scheme_sub_type : list (string * list (string * list fund))) : list cache_op :=
  concat (map (fun sh => scheme_sub_type_ops t sh.1 sh.2) scheme_sub_type) ++
  [AddSchemeType t (map fst scheme_sub_type)].

(** [redis_futures] as built by [_async_update_mf_cache]. *)
Definition redis_futures (parsed_funds : snapshot) : list cache_op :=
  concat (map (fun ts => scheme_type_ops ts.1 ts.2) parsed_funds).

Definition _async_update_mf_cache (parsed_funds : snapshot) : M unit :=
  gather (redis_futures parsed_funds).

(** [update_mf_cache]: [asyncio.run(self._async_update_mf_cache())]; no
    state of its own is read or written around the run. *)
Definition update_mf_cache (parsed_funds : snapshot) : M unit :=
  _async_update_mf_cache parsed_funds.

(** Several rebuilds at once.  [update_mf_cache] keeps no flag of its
    own, so nothing stops a second invocation (another worker, thread or
    process on the same Redis) while a first one still has commands to
    issue.  A configuration is the Redis store with the pending batch of
    each invocation started so far; an event either starts an invocation,
    which queues its whole [redis_futures], or lets invocation [i] issue
    its next command.  Commands are taken as the unit of interleaving. *)
Record rebuild_cfg := mkCfg { cfg_store : store; cfg_running : list (list cache_op) }.

Inductive rebuild_event :=
  | EvStart (parsed_funds : snapshot)
  | EvRun (i : nat).

Definition rebuild_step (c : rebuild_cfg) (ev : rebuild_event) : option rebuild_cfg :=
  match ev with
  | EvStart parsed_funds =>
    Some (mkCfg (cfg_store c) (cfg_running c ++ [redis_futures parsed_funds]))
  | EvRun i =>
    match cfg_running c !! i with
    | Some (o :: ops) => Some (mkCfg (fst (run_op o (cfg_store c))) (<[i := ops]> (cfg_running c)))
    | _ => None
    end
  end.

Fixpoint rebuild_trace (c : rebuild_cfg) (evs : list rebuild_event) : option rebuild_cfg :=
  match evs with
  | [] => Some c
  | ev :: evs' => c' ← rebuild_step c ev; rebuild_trace c' evs'
  end.

(** An invocation is running while it still has commands to issue. *)
Definition rebuild_running (c : rebuild_cfg) : Prop :=
  exists i o ops, cfg_running c !! i = Some (o :: ops).

Definition get_fund (fund_name : string) : M fund :=
  let key_str := FUND_PREFIX +:+ PREFIX_DELIMTER +:+ fund_name in
  let! json_data := r_get key_str in
  match json_data with
  | None => raise (FundKeyNotFound fund_name)
  | Some s => match deserialize_fund s with
              | Some f => ret f
              | None => raise DecodeError
              end
  end.

(** [get_fund_house]: [_get_set] is [r.smembers], which returns a set and
    never [None], so the [if fund_list is None] branch is never taken. *)
Definition get_fund_house (fund_house_name : string) : M (gset string) :=
  let key_str := FUND_HOUSE_PREFIX +:+ PREFIX_DELIMTER +:+ fund_house_name in
  let! fund_list := r_smembers key_str in
  ret fund_list.

(** [sorted(...)] on strings; any sorting algorithm yields the same list
    for this total order. *)
Definition py_sorted (l : list string) : list string := merge_sort String.le l.

Definition _get_prefix_keys (prefix : string) : M (list string) :=
  r_keys_prefix (prefix +:+ PREFIX_DELIMTER).

Definition get_fund_count : M nat :=
  let! ks := _get_prefix_keys FUND_PREFIX in ret (length ks).

Definition py_decode (b : string) : M string :=
  if utf8_valid b then ret b else raise UnicodeDecodeError.

(** A list comprehension [[f(item) for item in l]]: the items are taken
    in order and the first exception propagates. *)
Fixpoint py_list_comp (f : string -> M string) (l : list string) : M (list string) :=
  match l with
  | [] => ret []
  | item :: l' => let! y := f item in let! ys := py_list_comp f l' in ret (y :: ys)
  end.

(** [get_all_funds]: [r.keys] returns byte strings, each decoded with
    [item.decode()] before [replace_prefix]. *)
Definition get_all_funds : M (list string) :=
  let! fund_keys := _get_prefix_keys FUND_PREFIX in
  let! items := py_list_comp (fun item =>
                  let! s := py_decode item in ret (replace_prefix FUND_PREFIX s)) fund_keys in
  ret (py_sorted items).

(* ------------------------------------------------------------------ *)
(** ** The autocomplete backend *)

(** Levenshtein distance at most one. *)
Fixpoint lev_le1 (a b : string) : bool :=
  match a, b with
  | EmptyString, EmptyString => true
  | EmptyString, String _ b' => String.eqb b' EmptyString
  | String _ a', EmptyString => String.eqb a' EmptyString
  | String x a', String y b' =>
    if Ascii.eqb x y then lev_le1 a' b'
    else String.eqb a' b' || String.eqb a' b || String.eqb a b'
  end.

Fixpoint str_prefixes (s : string) : list string :=
  match s with
  | EmptyString => [EmptyString]
  | String c s' => EmptyString :: map (String c) (str_prefixes s')
  end.

Definition sug_matches (query : string) (fuzzy : bool) (s : string) : bool :=
  if fuzzy then existsb (lev_le1 query) (str_prefixes s)
  else String.prefix query s.

(** [AutoCompleter(key).get_suggestions(prefix, fuzzy=..)] is FT.SUGGET
    with [MAX 10]: at most ten of the dictionary entries of which [prefix]
    is a prefix (up to one edit when fuzzy).  RediSearch ranks the matches
    by a score that also depends on the fuzzy distance and the length of
    the entry; that ranking is not modelled, and the model takes the first
    ten matches in insertion order.  What follows relies only on the hits
    being matching entries, and on there being at least one hit when an
    entry matches. *)
Definition ft_sugget (ack query : string) (fuzzy : bool) (num : nat) : M (list string) :=
  fun st => match st !! ack with
            | None => (st, Ok [])
            | Some (VSug l) => (st, Ok (take num (filter (fun s => sug_matches query fuzzy s = true) l)))
            | Some _ => (st, Err WrongType)
            end.

(* ------------------------------------------------------------------ *)
(** ** AMFINavCacheSearchClient (search.py) *)

(** A search result: [replace_prefix] gives a [str], [.split] a [list]. *)
Inductive search_item := IStr (s : string) | IList (l : list string).

Record ac_type := {
  ac_prefix : string;
  ac_key : string;
  key_transform : string -> search_item
}.

Definition AC_TYPES : list (string * ac_type) :=
  [("fund", {| ac_prefix := FUND_PREFIX; ac_key := FUND_AUTOCOMPLETER_KEY;
               key_transform := fun item => IStr (replace_prefix FUND_PREFIX item) |});
   ("fund_house", {| ac_prefix := FUND_HOUSE_PREFIX; ac_key := FUND_HOUSE_AUTOCOMPLETER_KEY;
               key_transform := fun item => IStr (replace_prefix FUND_HOUSE_PREFIX item) |});
   ("scheme_sub_type", {| ac_prefix := SCHEME_SUB_TYPE_PREFIX;
               ac_key := SCHEME_SUB_TYPE_AUTOCOMPLETER_KEY;
               key_transform := fun item => IList (py_split_char PREFIX_DELIMTER_CHAR
                                   (replace_prefix SCHEME_SUB_TYPE_PREFIX item)) |});
   ("scheme_sub_type_fund_house", {| ac_prefix := SCHEME_SUB_TYPE_FUND_HOUSE_PREFIX;
               ac_key := SCHEME_SUB_TYPE_FUND_HOUSE_AUTOCOMPLETER_KEY;
               key_transform := fun item => IList (py_split_char PREFIX_DELIMTER_CHAR
                                   (replace_prefix SCHEME_SUB_TYPE_FUND_HOUSE_PREFIX item)) |})].

(** [self.AC_TYPES.get(query_type)] behind [assert(query_type in self.AC_TYPES)]. *)
Fixpoint ac_lookup (query_type : string) (l : list (string * ac_type)) : option ac_type :=
  match l with
  | [] => None
  | (k, p) :: l' => if String.eqb k query_type then Some p else ac_lookup query_type l'
  end.

Definition ENABLE_FUZZY := true.
Definition GET_SUGGESTIONS_NUM : nat := 10.

Definition _query (prefix query : string) : string := prefix +:+ PREFIX_DELIMTER +:+ query.

Definition search (query_type query : string) : M (list search_item) :=
  match ac_lookup query_type AC_TYPES with
  | None => raise (InvalidQueryType query_type)
  | Some query_provider =>
    let query_with_prefix := _query (ac_prefix query_provider) query in
    let! results := ft_sugget (ac_key query_provider) query_with_prefix
                              ENABLE_FUZZY GET_SUGGESTIONS_NUM in
    ret (map (key_transform query_provider) results)
  end.

(* ------------------------------------------------------------------ *)
(** ** The FastAPI boundary (app.py) *)

Definition PAGE_COUNT_LIMIT : Z := 1000.

(** The response object [{"pg": .., "items": .., "last": ..}]. *)
Record page := { resp_pg : Z; resp_items : list string; resp_last : Z }.

(** [l[i:j]] with Python's clamping of negative and large bounds. *)
Definition py_slice {A} (l : list A) (i j : Z) : list A :=
  let n := Z.of_nat (length l) in
  let norm k := if (k <? 0)%Z then Z.max 0 (n + k) else Z.min k n in
  take (Z.to_nat (norm j - norm i)) (drop (Z.to_nat (norm i)) l).

(** [int(a / b)]: true division then truncation toward zero, which is
    [Z.quot] for the fund counts at hand (far below 2^40, where float
    division cannot round across an integer); dividing by zero raises. *)
Definition py_int_div (a b : Z) : M Z :=
  if (b =? 0)%Z then raise ZeroDivision else ret (Z.quot a b).

(** [try: ... except Exception: raise HTTPException(...)]. *)
Definition catch_all {A} (m : M A) (e : error) : M A :=
  fun st => match m st with
            | (st', Err _) => (st', Err e)
            | r => r
            end.

(** [GET /api/v1/fund]; [count] is declared [Query(10, le=PAGE_COUNT_LIMIT)],
    so FastAPI rejects a larger value before the handler runs, with a
    validation error located at the query parameter [count]; the text of
    its message depends on the pydantic version and is not modelled. *)
Definition fetch_all_funds (pg count : Z) : M page :=
  if (PAGE_COUNT_LIMIT <? count)%Z
  then raise (RequestValidation ["query"; "count"])
  else
    let! r := catch_all
      (let! fund_keys := get_all_funds in
       let! total_pages := py_int_div (Z.of_nat (length fund_keys)) count in
       let fund_keys' := py_slice fund_keys (pg * count) (pg * count + count) in
       ret (fund_keys', total_pages))
      (HTTPException 400 "Error fetching funds.") in
    ret {| resp_pg := pg; resp_items := r.1; resp_last := r.2 |}.

(** The HTTP status of an exception that leaves a route: the status of an
    [HTTPException], 422 for a failed parameter validation, 500 for any
    other exception. *)
Definition http_status (e : error) : Z :=
  match e with
  | HTTPException status _ => status
  | RequestValidation _ => 422
  | _ => 500
  end.

(** [SearchResponse(q=q, results=results)]. *)
Record search_response := mkSearchResponse {
  sr_q : option string;
  sr_results : list search_item
}.

(** The optional query parameter [q] as the f-string in [_query] formats
    it: Python's [None] becomes the text [None]. *)
Definition py_format_opt (q : option string) : string :=
  match q with Some s => s | None => "None" end.

Section SearchRoute.

(** [str(e)] of an exception raised inside [search]; the texts of the
    Redis client's errors are the server's own and are left open. *)
Variable py_str : error -> string.

(** [GET /api/v1/search/{q_type}]: only two of the four namespaces are
    served; every exception of [search] becomes a 400 with [str(e)]. *)
Definition search_nav_cache (q_type : string) (q : option string) : M search_response :=
  if decide (q_type ∈ ["fund"; "fund_house"]) then
    fun st => match search q_type (py_format_opt q) st with
              | (st', Ok results) => (st', Ok {| sr_q := q; sr_results := results |})
              | (st', Err e) => (st', Err (HTTPException 400 (py_str e)))
              end
  else raise (HTTPException 400 "Invalid query type.").

End SearchRoute.

(** [FundResponse]: the six declared fields. *)
Record fund_response := mkFundResponse {
  fr_SchemeCode : string;
  fr_SchemeName : string;
  fr_ISINDivPayoutGrowth : string;
  fr_ISINDivReinvestment : string;
  fr_NAV : string;
  fr_Date : string
}.

(** [FundResponse] built from [dataclasses.asdict(fund)]: pydantic ignores the three
    fields [SchemeType], [SchemeSubType] and [SchemeFundHouse] that the
    model does not declare. *)
Definition fund_response_of (f : fund) : fund_response :=
  {| fr_SchemeCode := SchemeCode f; fr_SchemeName := SchemeName f;
     fr_ISINDivPayoutGrowth := ISINDivPayoutGrowth f;
     fr_ISINDivReinvestment := ISINDivReinvestment f;
     fr_NAV := NAV f; fr_Date := Date f |}.

(** [str(FundKeyNotFoundError(key))]. *)
Definition fund_key_not_found_str (key : string) : string := "Invalid Fund Name: " +:+ key.

(** [POST /api/v1/fund]: only [FundKeyNotFoundError] is turned into a 400;
    any other exception leaves the handler unchanged. *)
Definition fetch_fund (key : string) : M fund_response :=
  fun st => match get_fund key st with
            | (st', Ok f) => (st', Ok (fund_response_of f))
            | (st', Err (FundKeyNotFound k)) =>
                (st', Err (HTTPException 400 (fund_key_not_found_str k)))
            | (st', Err e) => (st', Err e)
            end.

(** [POST /api/v1/fund_house], the second handler named [fetch_fund].
    [get_fund_house] never raises [FundHouseKeyNotFoundError], so its
    [except] clause never fires; [scheme_sub_type] is a required query
    parameter the body does not use.  [list(funds)] lists the members of
    the set in an order Python does not fix; [elements] is one such order. *)
Definition fetch_fund' (key scheme_sub_type : string) : M (list string) :=
  let! funds := get_fund_house key in
  ret (elements funds).

(* ================================================================== *)
(** * Properties *)

(* ------------------------------------------------------------------ *)
(** ** String lemmas *)

Lemma str_app_cons (c : ascii) (s t : string) : String c s +:+ t = String c (s +:+ t).
Proof. reflexivity. Qed.

Lemma str_app_nil (t : string) : EmptyString +:+ t = t.
Proof. reflexivity. Qed.

Lemma str_app_assoc (a b c : string) : (a +:+ b) +:+ c = a +:+ (b +:+ c).
Proof. induction a as [|x a IH]; [done|]. rewrite !str_app_cons, IH. done. Qed.

Lemma str_prefix_app (p r : string) : String.prefix p (p +:+ r) = true.
Proof.
  induction p as [|a p IH]; [rewrite str_app_nil; by destruct r|].
  rewrite str_app_cons. simpl. destruct (ascii_dec a a); [exact IH|congruence].
Qed.

Lemma str_drop_app (p r : string) : str_drop (String.length p) (p +:+ r) = r.
Proof. induction p as [|a p IH]; [done|]. exact IH. Qed.

Lemma str_app_inj (p a b : string) : p +:+ a = p +:+ b -> a = b.
Proof. apply (inj (String.app p)). Qed.

Lemma str_contains_cons (pat : string) (c : ascii) (s : string) :
  str_contains pat (String c s) = false ->
  String.prefix pat (String c s) = false /\ str_contains pat s = false.
Proof.
  intros H. change (String.prefix pat (String c s) || str_contains pat s = false) in H.
  by apply orb_false_iff in H.
Qed.

Lemma replace_aux_absent (fuel : nat) (pat new s : string) :
  str_contains pat s = false -> replace_aux fuel pat new s = s.
Proof.
  revert fuel. induction s as [|c s IH]; intros [|fuel] H; try done.
  apply str_contains_cons in H as [Hp Hs]. cbn [replace_aux]. rewrite Hp, IH; done.
Qed.

Lemma py_replace_nonempty (s pat new : string) :
  pat <> EmptyString ->
  py_replace s pat new = replace_aux (S (String.length s)) pat new s.
Proof. destruct pat; done. Qed.

Lemma delim_key_nonempty (prefix : string) : prefix +:+ PREFIX_DELIMTER <> EmptyString.
Proof. destruct prefix; done. Qed.

(** [replace_prefix] on a key with no occurrence of [prefix:] is the
    identity. *)
Lemma replace_prefix_absent (prefix key : string) :
  str_contains (prefix +:+ PREFIX_DELIMTER) key = false ->
  replace_prefix prefix key = key.
Proof.
  intros H. unfold replace_prefix.
  rewrite py_replace_nonempty by apply delim_key_nonempty.
  by apply replace_aux_absent.
Qed.

(** On [prefix:rest] it gives [rest] when [prefix:] does not occur in
    [rest]. *)
Lemma replace_prefix_strip (prefix rest : string) :
  str_contains (prefix +:+ PREFIX_DELIMTER) rest = false ->
  replace_prefix prefix (prefix +:+ PREFIX_DELIMTER +:+ rest) = rest.
Proof.
  intros H. unfold replace_prefix.
  rewrite py_replace_nonempty by apply delim_key_nonempty.
  rewrite <- str_app_assoc.
  set (pat := prefix +:+ PREFIX_DELIMTER).
  assert (Hne : pat <> EmptyString) by apply delim_key_nonempty.
  destruct (pat +:+ rest) as [|c s] eqn:E.
  { destruct pat; done. }
  cbn [replace_aux]. rewrite <- E, str_prefix_app, str_drop_app.
  rewrite str_app_nil. by apply replace_aux_absent.
Qed.

(* ------------------------------------------------------------------ *)
(** ** Key parsing: [replace_prefix] *)

(** The reading of [parseKey] in §4.1 of the spec, for comparison with
    [replace_prefix]: strip a leading [prefix:], and [None] (MalformedKey)
    when the key does not start with it. *)
Definition parseKey_spec (prefix key : string) : option string :=
  if String.prefix (prefix +:+ PREFIX_DELIMTER) key
  then Some (str_drop (String.length (prefix +:+ PREFIX_DELIMTER)) key)
  else None.

(** C2 (counterexample): the key ["ABC Equity"] does not start with
    [FUND:], where parseKey fails with MalformedKey; [replace_prefix]
    returns the key itself. *)
Lemma C2_replace_prefix_no_failure :
  parseKey_spec FUND_PREFIX "ABC Equity" = None /\
  replace_prefix FUND_PREFIX "ABC Equity" = "ABC Equity".
Proof. split; reflexivity. Qed.

(** C2 (amended): for every prefix and every string [rest] in which
    [prefix:] does not occur, [replace_prefix] maps the key [prefix:rest]
    to [rest], and maps [rest] itself (a key without the prefix) to
    [rest] unchanged: there is no MalformedKey failure. *)
Theorem C2_replace_prefix_strips (prefix rest : string) :
  str_contains (prefix +:+ PREFIX_DELIMTER) rest = false ->
  replace_prefix prefix (prefix +:+ PREFIX_DELIMTER +:+ rest) = rest /\
  replace_prefix prefix rest = rest.
Proof.
  intros H. split; [by apply replace_prefix_strip | by apply replace_prefix_absent].
Qed.

Lemma C2_replace_prefix_strips_witness :
  str_contains (FUND_PREFIX +:+ PREFIX_DELIMTER) "ABC Equity" = false /\
  replace_prefix FUND_PREFIX (FUND_PREFIX +:+ PREFIX_DELIMTER +:+ "ABC Equity") = "ABC Equity" /\
  replace_prefix FUND_PREFIX "ABC Equity" = "ABC Equity".
Proof.
  split; [reflexivity|]. apply (C2_replace_prefix_strips FUND_PREFIX "ABC Equity").
  vm_compute. reflexivity.
Defined.

(* ------------------------------------------------------------------ *)
(** ** Lookups of absent keys *)

Lemma get_fund_absent (st : store) (fund_name : string) :
  st !! (FUND_PREFIX +:+ PREFIX_DELIMTER +:+ fund_name) = None ->
  get_fund fund_name st = (st, Err (FundKeyNotFound fund_name)).
Proof. intros H. unfold get_fund, bind, r_get. rewrite H. reflexivity. Qed.

(** C3 (code bug): a fund name with no value at [FUND:<name>] makes
    [get_fund] raise [FundKeyNotFoundError(name)], as the claim says; but a
    fund house with no set at [FUND_HOUSE:<house>] makes [get_fund_house]
    return the empty set instead of raising [FundHouseKeyNotFoundError]. *)
Theorem C3_get_fund_house_absent_is_empty (st : store) (fund_name house : string) :
  st !! (FUND_PREFIX +:+ PREFIX_DELIMTER +:+ fund_name) = None ->
  st !! (FUND_HOUSE_PREFIX +:+ PREFIX_DELIMTER +:+ house) = None ->
  get_fund fund_name st = (st, Err (FundKeyNotFound fund_name)) /\
  get_fund_house house st = (st, Ok ∅).
Proof.
  intros Hf Hh. split; [by apply get_fund_absent|].
  unfold get_fund_house, bind, r_smembers. rewrite Hh. reflexivity.
Qed.

Lemma C3_get_fund_house_absent_is_empty_witness :
  get_fund "XYZ Fund" ∅ = (∅, Err (FundKeyNotFound "XYZ Fund")) /\
  get_fund_house "XYZ Mutual Fund" ∅ = (∅, Ok ∅).
Proof. apply C3_get_fund_house_absent_is_empty; reflexivity. Defined.

(* ------------------------------------------------------------------ *)
(** ** Paging *)

(** The keys [KEYS FUND:*] returns and the list [get_all_funds] builds. *)
Definition fund_keys (st : store) : list string :=
  filter (fun k => String.prefix (FUND_PREFIX +:+ PREFIX_DELIMTER) k = true)
         (map fst (map_to_list st)).

Definition all_fund_ids (st : store) : list string :=
  py_sorted (map (replace_prefix FUND_PREFIX) (fund_keys st)).

(** Every [FUND:] key decodes as UTF-8. *)
Definition fund_keys_utf8 (st : store) : bool := forallb utf8_valid (fund_keys st).

Lemma py_list_comp_decode (f : string -> M string) (g : string -> string)
    (l : list string) (st : store) :
  (forall x st0, f x st0 = if utf8_valid x then (st0, Ok (g x)) else (st0, Err UnicodeDecodeError)) ->
  py_list_comp f l st =
    if forallb utf8_valid l then (st, Ok (map g l)) else (st, Err UnicodeDecodeError).
Proof.
  intros Hf. induction l as [|x l IH]; [done|]. cbn [py_list_comp forallb].
  unfold bind at 1. rewrite Hf. destruct (utf8_valid x); cbn [andb]; [|done].
  unfold bind. rewrite IH. by destruct (forallb utf8_valid l).
Qed.

(** [get_all_funds] raises [UnicodeDecodeError] exactly when some [FUND:]
    key is not UTF-8; otherwise it returns the sorted stripped keys. *)
Lemma get_all_funds_eq (st : store) :
  get_all_funds st =
    if fund_keys_utf8 st then (st, Ok (all_fund_ids st)) else (st, Err UnicodeDecodeError).
Proof.
  unfold get_all_funds, fund_keys_utf8, all_fund_ids. unfold bind at 1.
  change (_get_prefix_keys FUND_PREFIX st) with (st, Ok (fund_keys st)). cbv iota beta.
  unfold bind at 1.
  rewrite (py_list_comp_decode _ (replace_prefix FUND_PREFIX)).
  - by destruct (forallb utf8_valid (fund_keys st)).
  - intros x st0. unfold bind, py_decode. by destruct (utf8_valid x).
Qed.

(** C10: with [count = 0] the request passes validation, the division by
    zero raises (or, before it, the decoding of a key), and the handler
    answers the generic HTTP 400 error, for every store and every page
    number. *)
Theorem C10_page_size_zero_fails (st : store) (pg : Z) :
  fetch_all_funds pg 0 st = (st, Err (HTTPException 400 "Error fetching funds.")).
Proof.
  unfold fetch_all_funds, catch_all, bind. cbn -[get_all_funds].
  rewrite get_all_funds_eq. by destruct (fund_keys_utf8 st).
Qed.

Lemma get_fund_count_eq (st : store) : get_fund_count st = (st, Ok (length (fund_keys st))).
Proof. reflexivity. Qed.

Lemma all_fund_ids_length (st : store) : length (all_fund_ids st) = length (fund_keys st).
Proof.
  unfold all_fund_ids, py_sorted.
  rewrite (Permutation_length (merge_sort_Permutation _ _)). apply length_map.
Qed.

Lemma all_fund_ids_sorted (st : store) : StronglySorted String.le (all_fund_ids st).
Proof. unfold all_fund_ids, py_sorted. apply StronglySorted_merge_sort; apply _. Qed.

Lemma py_slice_sorted (l : list string) (i j : Z) :
  StronglySorted String.le l -> StronglySorted String.le (py_slice l i j).
Proof.
  intros H. unfold py_slice.
  set (a := Z.to_nat _). set (b := Z.to_nat _).
  assert (Hd : StronglySorted String.le (drop b l)).
  { rewrite <- (take_drop b l) in H. by apply StronglySorted_app_1_r in H. }
  rewrite <- (take_drop a (drop b l)) in Hd. by apply StronglySorted_app_1_l in Hd.
Qed.

Lemma fetch_all_funds_ok (st : store) (pg count : Z) :
  fund_keys_utf8 st = true -> (count <= PAGE_COUNT_LIMIT)%Z -> count <> 0%Z ->
  fetch_all_funds pg count st =
    (st, Ok {| resp_pg := pg;
               resp_items := py_slice (all_fund_ids st) (pg * count) (pg * count + count);
               resp_last := Z.quot (Z.of_nat (length (fund_keys st))) count |}).
Proof.
  intros Hu Hle Hne. unfold fetch_all_funds.
  destruct (Z.ltb_spec PAGE_COUNT_LIMIT count); [lia|].
  unfold bind, catch_all. rewrite get_all_funds_eq, Hu. unfold py_int_div.
  destruct (Z.eqb_spec count 0); [done|].
  rewrite all_fund_ids_length. reflexivity.
Qed.

Lemma fetch_all_funds_too_large (st : store) (pg count : Z) :
  (PAGE_COUNT_LIMIT < count)%Z ->
  fetch_all_funds pg count st = (st, Err (RequestValidation ["query"; "count"])).
Proof.
  intros H. unfold fetch_all_funds. destruct (Z.ltb_spec PAGE_COUNT_LIMIT count); [done|lia].
Qed.

Lemma fetch_all_funds_undecodable (st : store) (pg count : Z) :
  fund_keys_utf8 st = false -> (count <= PAGE_COUNT_LIMIT)%Z ->
  fetch_all_funds pg count st = (st, Err (HTTPException 400 "Error fetching funds.")).
Proof.
  intros Hu Hle. unfold fetch_all_funds.
  destruct (Z.ltb_spec PAGE_COUNT_LIMIT count); [lia|].
  unfold catch_all, bind. cbn -[get_all_funds]. rewrite get_all_funds_eq, Hu. reflexivity.
Qed.

(** C7 (counterexample): with 7 funds and [count = -5] the request is
    accepted and [last] is [int(7 / -5) = -1], not [floor(7 / -5) = -2]. *)
Definition seven_funds : store :=
  list_to_map [("FUND:A", VStr "a"); ("FUND:B", VStr "b"); ("FUND:C", VStr "c");
               ("FUND:D", VStr "d"); ("FUND:E", VStr "e"); ("FUND:F", VStr "f");
               ("FUND:G", VStr "g")].

Lemma C7_negative_page_size_truncates :
  get_fund_count seven_funds = (seven_funds, Ok 7%nat) /\
  fetch_all_funds 0 (-5) seven_funds =
    (seven_funds, Ok {| resp_pg := 0; resp_items := ["A"; "B"]; resp_last := -1 |}) /\
  (-1 <> 7 / -5)%Z.
Proof. vm_compute. repeat split; congruence. Qed.

(** C7 (amended): for every store and page number, the fund identifiers
    are sorted in ascending order.  When every [FUND:] key is UTF-8: every
    page size from 1 to 1000 (1000 included) is accepted, the items are a
    slice of the sorted identifiers, and [last] is [floor(totalFunds /
    count)] with [totalFunds] the [get_fund_count] result; a negative page
    size is accepted as well, the items are again a slice, and [last] is
    [totalFunds / count] truncated toward zero.  When some [FUND:] key is
    not UTF-8, every page size up to 1000 is answered with the HTTP 400
    [Error fetching funds.].  Every page size above 1000 is rejected by
    parameter validation, with HTTP status 422. *)
Theorem C7_list_funds (st : store) (pg : Z) :
  let n := length (fund_keys st) in
  get_fund_count st = (st, Ok n) /\
  StronglySorted String.le (all_fund_ids st) /\
  (fund_keys_utf8 st = true ->
   (forall count, (1 <= count <= PAGE_COUNT_LIMIT)%Z ->
      exists p, fetch_all_funds pg count st = (st, Ok p) /\
        StronglySorted String.le (resp_items p) /\
        resp_items p = py_slice (all_fund_ids st) (pg * count) (pg * count + count) /\
        resp_last p = (Z.of_nat n / count)%Z) /\
   (forall count, (count < 0)%Z ->
      exists p, fetch_all_funds pg count st = (st, Ok p) /\
        StronglySorted String.le (resp_items p) /\
        resp_items p = py_slice (all_fund_ids st) (pg * count) (pg * count + count) /\
        resp_last p = Z.quot (Z.of_nat n) count)) /\
  (fund_keys_utf8 st = false ->
   forall count, (count <= PAGE_COUNT_LIMIT)%Z ->
     fetch_all_funds pg count st = (st, Err (HTTPException 400 "Error fetching funds."))) /\
  (forall count, (PAGE_COUNT_LIMIT < count)%Z ->
     exists e, fetch_all_funds pg count st = (st, Err e) /\ http_status e = 422%Z).
Proof.
  intros n. split; [apply get_fund_count_eq|]. split; [apply all_fund_ids_sorted|].
  split; [|split].
  - intros Hu. split.
    + intros count Hc. rewrite fetch_all_funds_ok by (done || (unfold PAGE_COUNT_LIMIT in *; lia)).
      eexists. split; [reflexivity|]. simpl. split; [|split; [done|]].
      * apply py_slice_sorted, all_fund_ids_sorted.
      * apply Z.quot_div_nonneg; lia.
    + intros count Hc. rewrite fetch_all_funds_ok by (done || (unfold PAGE_COUNT_LIMIT; lia)).
      eexists. split; [reflexivity|]. simpl. split; [|done].
      apply py_slice_sorted, all_fund_ids_sorted.
  - intros Hu count Hc. by apply fetch_all_funds_undecodable.
  - intros count Hc. eexists. split; [by apply fetch_all_funds_too_large|reflexivity].
Qed.

(* ------------------------------------------------------------------ *)
(** ** Search *)

(** [search] on a registered namespace returns the key-transformed
    backend hits, in the backend's order. *)
Lemma search_hits (st : store) (qt q : string) (p : ac_type) (hits : list string) :
  ac_lookup qt AC_TYPES = Some p ->
  ft_sugget (ac_key p) (_query (ac_prefix p) q) ENABLE_FUZZY GET_SUGGESTIONS_NUM st
    = (st, Ok hits) ->
  search qt q st = (st, Ok (map (key_transform p) hits)).
Proof. intros Hl Hs. unfold search, bind. rewrite Hl, Hs. reflexivity. Qed.






Lemma split_no_delim (d : ascii) (b : string) :
  str_contains (String d EmptyString) b = false -> py_split_char d b = [b].
Proof.
  induction b as [|c b IH]; [done|]. intros H.
  apply str_contains_cons in H as [Hp Hb]. simpl in Hp |- *.
  rewrite IH by done. destruct (ascii_dec d c) as [->|Hne]; [by destruct b|].
  destruct (Ascii.eqb_spec c d); [congruence|done].
Qed.

Lemma split_app_delim (d : ascii) (a b : string) :
  str_contains (String d EmptyString) a = false ->
  py_split_char d (a +:+ String d b) = a :: py_split_char d b.
Proof.
  induction a as [|c a IH]; intros H.
  - rewrite str_app_nil. simpl. by rewrite Ascii.eqb_refl.
  - apply str_contains_cons in H as [Hp Ha]. simpl in Hp.
    rewrite str_app_cons. simpl. rewrite IH by done.
    destruct (ascii_dec d c) as [->|Hne]; [by destruct a|].
    destruct (Ascii.eqb_spec c d); [congruence|done].
Qed.


(** C5 (counterexample): a scheme sub type named ["Debt: Liquid"] under
    ["Open Ended"] is registered by [_add_scheme_sub_type]; searching
    ["Open"] in [scheme_sub_type] yields a three-element list, not a pair
    of identifiers. *)
Definition colon_sub_type_store : store :=
  fst (_add_scheme_sub_type "Open Ended" "Debt: Liquid" ["ABC Mutual Fund"] ∅).

Lemma C5_split_yields_three_parts :
  search "scheme_sub_type" "Open" colon_sub_type_store =
    (colon_sub_type_store, Ok [IList ["Open Ended"; "Debt"; " Liquid"]]).
Proof. vm_compute. reflexivity. Qed.

Lemma split_cons (d : ascii) (s : string) : exists p ps, py_split_char d s = p :: ps.
Proof.
  induction s as [|c s (p & ps & IH)]; [by eexists _, _|]. simpl. rewrite IH.
  destruct (Ascii.eqb c d); by eexists _, _.
Qed.

Lemma split_app (d : ascii) (a b : string) :
  py_split_char d (a +:+ String d b) = py_split_char d a ++ py_split_char d b.
Proof.
  induction a as [|c a IH].
  - rewrite str_app_nil. simpl. by rewrite Ascii.eqb_refl.
  - rewrite str_app_cons. cbn [py_split_char]. rewrite IH.
    destruct (split_cons d a) as (p & ps & ->). by destruct (Ascii.eqb c d).
Qed.

Lemma split_length_contains (d : ascii) (s : string) :
  str_contains (String d EmptyString) s = true -> 2 <= length (py_split_char d s).
Proof.
  induction s as [|c s IH]; [done|]. intros H.
  change (String.prefix (String d EmptyString) (String c s) || str_contains (String d EmptyString) s
          = true) in H.
  cbn [py_split_char]. destruct (split_cons d s) as (p & ps & Hs). rewrite Hs.
  destruct (Ascii.eqb_spec c d) as [->|Hne]; [simpl; lia|].
  apply orb_true_iff in H as [H|H].
  - simpl in H. destruct (ascii_dec d c); [congruence|done].
  - apply IH in H. rewrite Hs in H. done.
Qed.

(** C5 (amended): in a composite namespace ([scheme_sub_type],
    [scheme_sub_type_fund_house], prefix [P]), a hit [P:a:b] in which [P:]
    does not occur again is transformed into the list of the parts of
    [a:b] split at every [:]: the pair [[a; b]] when neither [a] nor [b]
    contains [:], more than two parts when one of them does.  A hit [P:a]
    of [fund] or [fund_house] in which [P:] does not occur again is
    transformed into the string [a], whatever [:] it contains.  [search]
    returns the transforms of the backend hits in order. *)
Theorem C5_key_transform :
  (forall qt P, In (qt, P) [("scheme_sub_type", SCHEME_SUB_TYPE_PREFIX);
                            ("scheme_sub_type_fund_house", SCHEME_SUB_TYPE_FUND_HOUSE_PREFIX)] ->
     exists p, ac_lookup qt AC_TYPES = Some p /\ ac_prefix p = P /\
       (forall st q hits,
          ft_sugget (ac_key p) (_query P q) ENABLE_FUZZY GET_SUGGESTIONS_NUM st = (st, Ok hits) ->
          search qt q st = (st, Ok (map (key_transform p) hits))) /\
       (forall a b,
          str_contains (P +:+ PREFIX_DELIMTER) (a +:+ PREFIX_DELIMTER +:+ b) = false ->
          key_transform p (P +:+ PREFIX_DELIMTER +:+ a +:+ PREFIX_DELIMTER +:+ b) =
            IList (py_split_char PREFIX_DELIMTER_CHAR a ++ py_split_char PREFIX_DELIMTER_CHAR b) /\
          (str_contains PREFIX_DELIMTER a = false -> str_contains PREFIX_DELIMTER b = false ->
             key_transform p (P +:+ PREFIX_DELIMTER +:+ a +:+ PREFIX_DELIMTER +:+ b) = IList [a; b]) /\
          (str_contains PREFIX_DELIMTER a = true \/ str_contains PREFIX_DELIMTER b = true ->
             exists parts,
               key_transform p (P +:+ PREFIX_DELIMTER +:+ a +:+ PREFIX_DELIMTER +:+ b) = IList parts /\
               2 < length parts))) /\
  (forall qt P, In (qt, P) [("fund", FUND_PREFIX); ("fund_house", FUND_HOUSE_PREFIX)] ->
     exists p, ac_lookup qt AC_TYPES = Some p /\ ac_prefix p = P /\
       (forall st q hits,
          ft_sugget (ac_key p) (_query P q) ENABLE_FUZZY GET_SUGGESTIONS_NUM st = (st, Ok hits) ->
          search qt q st = (st, Ok (map (key_transform p) hits))) /\
       (forall a, str_contains (P +:+ PREFIX_DELIMTER) a = false ->
          key_transform p (P +:+ PREFIX_DELIMTER +:+ a) = IStr a)).
Proof.
  split; intros qt P Hin;
    simpl in Hin; destruct Hin as [[= <- <-]|[[= <- <-]|[]]];
    (eexists; split; [reflexivity|]; split; [reflexivity|]; split;
     [intros st q hits Hs; by apply search_hits|]).
  all: try (intros a Hc; cbn [key_transform]; by rewrite replace_prefix_strip).
  all: intros a b Hc; cbn [key_transform]; rewrite replace_prefix_strip by done;
    change PREFIX_DELIMTER with (String PREFIX_DELIMTER_CHAR EmptyString) in *;
    rewrite str_app_cons, str_app_nil, split_app.
  all: split; [done|]; split.
  all: try (intros Ha Hb; rewrite (split_no_delim _ a Ha), (split_no_delim _ b Hb); done).
  all: intros Hab; eexists; split; [reflexivity|]; rewrite length_app;
    destruct (split_cons PREFIX_DELIMTER_CHAR a) as (pa & psa & Ea);
    destruct (split_cons PREFIX_DELIMTER_CHAR b) as (pb & psb & Eb);
    destruct Hab as [Hab|Hab]; apply split_length_contains in Hab;
    rewrite ?Ea, ?Eb in *; simpl in *; lia.
Qed.

Lemma C5_key_transform_witness :
  exists p, ac_lookup "scheme_sub_type" AC_TYPES = Some p /\
    exists parts,
      key_transform p (SCHEME_SUB_TYPE_PREFIX +:+ PREFIX_DELIMTER +:+ "Open Ended" +:+
                       PREFIX_DELIMTER +:+ "Debt: Liquid") = IList parts /\ 2 < length parts.
Proof.
  destruct (proj1 C5_key_transform "scheme_sub_type" SCHEME_SUB_TYPE_PREFIX)
    as (p & Hl & _ & _ & Hk); [by left|].
  exists p. split; [exact Hl|].
  apply (Hk "Open Ended" "Debt: Liquid"); [vm_compute; reflexivity|right; vm_compute; reflexivity].
Defined.

(** C8 (counterexample): after [_set_fund] has registered one fund, the
    empty query on the [fund] namespace is sent as ["FUND:"], which
    prefix-matches the registered suggestion: the result is not empty. *)
Definition one_fund : fund :=
  mkFund "100" "ABC Equity Fund - Growth" "INF000A01" "INF000A02" "12.5"
         "01-Jan-2020" "Open Ended" "Equity" "ABC Mutual Fund".





(* ------------------------------------------------------------------ *)
(** ** Set membership in the store and the add-operations *)

Definition set_mem (k x : string) (st : store) : Prop :=
  exists s, st !! k = Some (VSet s) /\ x ∈ s.

Definition preserves (P : store -> Prop) {A} (m : M A) : Prop :=
  forall st, P st -> P (fst (m st)).

Lemma bind_preserves (P : store -> Prop) {A B} (m : M A) (k : A -> M B) :
  preserves P m -> (forall a, preserves P (k a)) -> preserves P (bind m k).
Proof.
  intros Hm Hk st HP. unfold bind. specialize (Hm st HP).
  destruct (m st) as [st1 [a|e]]; simpl in *; [by apply Hk|done].
Qed.

Lemma set_mem_insert_ne (k' k x : string) (v : value) (st : store) :
  k' <> k -> set_mem k x st -> set_mem k x (<[k' := v]> st).
Proof. intros Hne (s & Hs & Hx). exists s. by rewrite lookup_insert_ne. Qed.

Lemma r_sadd_preserves_mem (k' : string) (names : list string) (k x : string) :
  preserves (set_mem k x) (r_sadd k' names).
Proof.
  intros st Hm. pose proof Hm as (s & Hs & Hx). unfold r_sadd.
  destruct names as [|n names]; [done|].
  destruct (decide (k' = k)) as [->|Hne].
  - rewrite Hs. simpl. exists (s ∪ list_to_set (n :: names)).
    rewrite lookup_insert_eq. split; [done|set_solver].
  - destruct (st !! k') as [[]|]; simpl; try done; by apply set_mem_insert_ne.
Qed.

Lemma ft_sugadd_preserves_mem (ack s' k x : string) :
  preserves (set_mem k x) (ft_sugadd ack s').
Proof.
  intros st Hm. pose proof Hm as (s & Hs & Hx). unfold ft_sugadd.
  destruct (decide (ack = k)) as [->|Hne]; [rewrite Hs; done|].
  destruct (st !! ack) as [[| |l]|]; simpl; try done;
    [destruct (decide (s' ∈ l)); simpl; [done|]|];
    by apply set_mem_insert_ne.
Qed.

Lemma r_set_preserves_mem (k' v k x : string) :
  k' <> k -> preserves (set_mem k x) (r_set k' v).
Proof. intros Hne st Hm. by apply set_mem_insert_ne. Qed.

Create HintDb preserves.
Local Hint Resolve bind_preserves r_sadd_preserves_mem ft_sugadd_preserves_mem
  r_set_preserves_mem : preserves.

Definition FUND_KEY (name : string) : string := FUND_PREFIX +:+ PREFIX_DELIMTER +:+ name.

(** Every command of the cache keeps every member of every set, except the
    [SET] of a fund record over the same key. *)
Lemma run_op_preserves_mem (o : cache_op) (k x : string) :
  (forall f, o = SetFund f -> FUND_KEY (SchemeName f) <> k) ->
  preserves (set_mem k x) (run_op o).
Proof.
  intros Hf. destruct o as [f| | | |]; simpl;
    unfold _set_fund, _add_fund_house_under_sub_type, _add_fund_house,
      _add_scheme_sub_type, _add_scheme_type;
    repeat apply bind_preserves; intros; eauto with preserves.
Qed.

(** The set a key holds, empty when absent. *)
Definition old_set (st : store) (k : string) : gset string :=
  match st !! k with Some (VSet s) => s | _ => ∅ end.

Definition set_slot_ok (st : store) (k : string) : Prop :=
  match st !! k with None | Some (VSet _) => True | _ => False end.

Definition sug_slot_ok (st : store) (k : string) : Prop :=
  match st !! k with None | Some (VSug _) => True | _ => False end.

Lemma r_sadd_ok (st : store) (k : string) (names : list string) :
  names <> [] -> set_slot_ok st k ->
  r_sadd k names st = (<[k := VSet (old_set st k ∪ list_to_set names)]> st, Ok tt).
Proof.
  intros Hn Hk. unfold r_sadd, set_slot_ok, old_set in *.
  destruct names as [|n names]; [done|].
  destruct (st !! k) as [[]|]; try done. by rewrite union_empty_l_L.
Qed.

Lemma ft_sugadd_ok (st : store) (ack s : string) :
  sug_slot_ok st ack ->
  exists st', ft_sugadd ack s st = (st', Ok tt) /\
    (exists l, st' !! ack = Some (VSug l) /\ s ∈ l) /\
    (forall k, k <> ack -> st' !! k = st !! k).
Proof.
  unfold sug_slot_ok, ft_sugadd. intros Hk.
  destruct (st !! ack) as [[| |l]|] eqn:E; try done.
  - destruct (decide (s ∈ l)).
    + eexists; split; [done|]. split; [by exists l|done].
    + eexists; split; [done|]. split.
      * exists (l ++ [s]). rewrite lookup_insert_eq. split; [done|set_solver].
      * intros k Hne. by rewrite lookup_insert_ne.
  - eexists; split; [done|]. split.
    + exists [s]. rewrite lookup_insert_eq. split; [done|set_solver].
    + intros k Hne. by rewrite lookup_insert_ne.
Qed.

Definition ac_keys : list string :=
  [FUND_HOUSE_AUTOCOMPLETER_KEY; FUND_AUTOCOMPLETER_KEY;
   SCHEME_SUB_TYPE_AUTOCOMPLETER_KEY; SCHEME_SUB_TYPE_FUND_HOUSE_AUTOCOMPLETER_KEY].

(** The set key and the members an add-operation writes ([None] for the
    record write [_set_fund]). *)
Definition add_op_target (o : cache_op) : option (string * list string) :=
  match o with
  | SetFund _ => None
  | AddFundHouseUnderSubType sub h names =>
      Some (SCHEME_SUB_TYPE_FUND_HOUSE_PREFIX +:+ PREFIX_DELIMTER +:+ sub +:+
            PREFIX_DELIMTER +:+ h, names)
  | AddFundHouse h names => Some (FUND_HOUSE_PREFIX +:+ PREFIX_DELIMTER +:+ h, names)
  | AddSchemeSubType t sub hs =>
      Some (SCHEME_SUB_TYPE_PREFIX +:+ PREFIX_DELIMTER +:+ t +:+ PREFIX_DELIMTER +:+ sub, hs)
  | AddSchemeType t subs => Some (SCHEME_TYPE_PREFIX +:+ PREFIX_DELIMTER +:+ t, subs)
  end.

(** The autocompleter and the suggestion an add-operation is expected to
    register, per the spec's table of search namespaces. *)
Definition add_op_suggestion (o : cache_op) : option (string * string) :=
  match o with
  | SetFund _ | AddSchemeType _ _ => None
  | AddFundHouseUnderSubType sub h _ =>
      Some (SCHEME_SUB_TYPE_FUND_HOUSE_AUTOCOMPLETER_KEY,
            SCHEME_SUB_TYPE_FUND_HOUSE_PREFIX +:+ PREFIX_DELIMTER +:+ sub +:+
            PREFIX_DELIMTER +:+ h)
  | AddFundHouse h _ =>
      Some (FUND_HOUSE_AUTOCOMPLETER_KEY, FUND_HOUSE_PREFIX +:+ PREFIX_DELIMTER +:+ h)
  | AddSchemeSubType t sub _ =>
      Some (SCHEME_SUB_TYPE_AUTOCOMPLETER_KEY,
            SCHEME_SUB_TYPE_PREFIX +:+ PREFIX_DELIMTER +:+ t +:+ PREFIX_DELIMTER +:+ sub)
  end.

(** Two keys that differ in a character of their literal prefix. *)
Ltac key_neq := let Heq := fresh in intros Heq; cbv in Heq; discriminate Heq.

Lemma add_op_success (o : cache_op) (key : string) (names : list string) (ack s : string)
    (st : store) :
  add_op_target o = Some (key, names) -> add_op_suggestion o = Some (ack, s) ->
  names <> [] -> set_slot_ok st key -> sug_slot_ok st ack ->
  snd (run_op o st) = Ok tt /\
  fst (run_op o st) !! key = Some (VSet (old_set st key ∪ list_to_set names)) /\
  exists l, fst (run_op o st) !! ack = Some (VSug l) /\ s ∈ l.
Proof.
  intros Ht Hs Hn Hk Ha.
  assert (Hne : key <> ack /\ run_op o = (r_sadd key names ;;; ft_sugadd ack s)).
  { destruct o; simpl in Ht, Hs; try done; injection Ht as <- <-; injection Hs as <- <-;
      (split; [key_neq|reflexivity]). }
  destruct Hne as [Hne ->]. unfold bind. rewrite r_sadd_ok by done.
  destruct (ft_sugadd_ok (<[key := VSet (old_set st key ∪ list_to_set names)]> st) ack s)
    as (st' & Heq & Hl & Hother).
  { unfold sug_slot_ok. rewrite lookup_insert_ne by congruence. exact Ha. }
  rewrite Heq. simpl. split; [done|]. split; [|done].
  rewrite Hother by congruence. by rewrite lookup_insert_eq.
Qed.

Lemma r_sadd_other (k k' : string) (names : list string) (st : store) :
  k <> k' -> fst (r_sadd k names st) !! k' = st !! k'.
Proof.
  intros Hne. unfold r_sadd. destruct names; [done|].
  destruct (st !! k) as [[]|]; simpl; try done; by rewrite lookup_insert_ne.
Qed.

(** C9 (counterexample): [_add_fund_house] with an empty list of fund
    names (a fund house without funds) issues SADD without a member,
    which Redis refuses: the call raises and registers no suggestion. *)
Lemma C9_empty_members_no_suggestion :
  _add_fund_house "ABC Mutual Fund" [] ∅ = (∅, Err (WrongArity "sadd")).
Proof. reflexivity. Qed.

Lemma add_op_empty_fails (o : cache_op) (key : string) (st : store) :
  add_op_target o = Some (key, []) -> run_op o st = (st, Err (WrongArity "sadd")).
Proof. destruct o; simpl; intros H; simplify_eq; reflexivity. Qed.

(** C9 (amended): every add-operation keeps every existing member of every
    set, whatever happens; exactly [addSchemeType] has no autocompleter; on
    a non-empty member list, over a key that is absent or holds a set and
    an autocompleter key that is absent or holds suggestions, the
    operation succeeds, leaves at its key the union of the old set and the
    members, and registers its key as a suggestion (for the three with an
    autocompleter); [addSchemeType] leaves every autocompleter untouched;
    on an empty member list the operation fails with the SADD error and
    leaves the store as it was, so it registers no suggestion. *)
Theorem C9_add_ops (o : cache_op) (key : string) (names : list string) :
  add_op_target o = Some (key, names) ->
  (forall k x st, set_mem k x st -> set_mem k x (fst (run_op o st))) /\
  (add_op_suggestion o = None <-> exists t subs, o = AddSchemeType t subs) /\
  (forall st, names <> [] -> set_slot_ok st key ->
     (forall ack s, add_op_suggestion o = Some (ack, s) -> sug_slot_ok st ack) ->
     snd (run_op o st) = Ok tt /\
     fst (run_op o st) !! key = Some (VSet (old_set st key ∪ list_to_set names)) /\
     (forall ack s, add_op_suggestion o = Some (ack, s) ->
        exists l, fst (run_op o st) !! ack = Some (VSug l) /\ s ∈ l)) /\
  (add_op_suggestion o = None ->
     forall st ack, ack ∈ ac_keys -> fst (run_op o st) !! ack = st !! ack) /\
    (names = [] -> forall st, run_op o st = (st, Err (WrongArity "sadd"))).
Proof.
  intros Ht. split; [|split; [|split; [|split]]].
  - intros k x st Hm. apply run_op_preserves_mem; [|done].
    intros f ->. done.
  - destruct o; simpl in *; try done; split; try done; naive_solver.
  - intros st Hn Hk Ha. destruct (add_op_suggestion o) as [[ack s]|] eqn:Hs.
    + destruct (add_op_success o key names ack s st) as (? & ? & ?); try done.
      { by apply (Ha ack s). }
      split; [done|]. split; [done|]. by intros ? ? [= <- <-].
    + destruct o; simpl in Ht, Hs; try done. injection Ht as <- <-.
      cbn [run_op]. unfold _add_scheme_type. cbv zeta.
      rewrite r_sadd_ok by done. cbn [fst snd]. split; [done|]. split; [by rewrite lookup_insert_eq|done].
  - intros Hs st ack Hack. destruct o; simpl in Ht, Hs; try done.
    injection Ht as <- <-. cbn [run_op]. unfold _add_scheme_type. cbv zeta.
    apply r_sadd_other.
    apply list_elem_of_In in Hack. simpl in Hack.
    destruct Hack as [<-|[<-|[<-|[<-|[]]]]]; key_neq.
  - intros -> st. by apply (add_op_empty_fails o key).
Qed.

Lemma C9_add_ops_witness :
  let o := AddFundHouse "ABC Mutual Fund" ["ABC Equity Fund - Growth"] in
  (forall k x st, set_mem k x st -> set_mem k x (fst (run_op o st))) /\
  (add_op_suggestion o = None <-> exists t subs, o = AddSchemeType t subs) /\
  (forall st, ["ABC Equity Fund - Growth"] <> [] ->
     set_slot_ok st (FUND_HOUSE_PREFIX +:+ PREFIX_DELIMTER +:+ "ABC Mutual Fund") ->
     (forall ack s, add_op_suggestion o = Some (ack, s) -> sug_slot_ok st ack) ->
     snd (run_op o st) = Ok tt /\
     fst (run_op o st) !! (FUND_HOUSE_PREFIX +:+ PREFIX_DELIMTER +:+ "ABC Mutual Fund")
       = Some (VSet (old_set st (FUND_HOUSE_PREFIX +:+ PREFIX_DELIMTER +:+ "ABC Mutual Fund")
                     ∪ list_to_set ["ABC Equity Fund - Growth"])) /\
     (forall ack s, add_op_suggestion o = Some (ack, s) ->
        exists l, fst (run_op o st) !! ack = Some (VSug l) /\ s ∈ l)) /\
  (add_op_suggestion o = None ->
     forall st ack, ack ∈ ac_keys -> fst (run_op o st) !! ack = st !! ack) /\
    (["ABC Equity Fund - Growth"] = [] ->
     forall st, run_op o st = (st, Err (WrongArity "sadd"))).
Proof. apply C9_add_ops. reflexivity. Defined.

(* ------------------------------------------------------------------ *)
(** ** Round trip of fund records *)

Lemma str_length_app (a b : string) :
  String.length (a +:+ b) = (String.length a + String.length b)%nat.
Proof. induction a as [|c a IH]; [done|]. rewrite str_app_cons. simpl. by rewrite IH. Qed.

Lemma expect_app (lit r : string) : expect lit (lit +:+ r) = Some r.
Proof.
  induction lit as [|c lit IH]; [done|].
  rewrite str_app_cons. simpl. by rewrite Ascii.eqb_refl.
Qed.

Lemma parse_str_escape (s r : string) :
  parse_str (json_escape s +:+ String QUOTE r) = Some (s, r).
Proof.
  induction s as [|c s IH]; [done|]. simpl.
  destruct (Ascii.eqb c QUOTE) eqn:Hq; simpl.
  - by rewrite IH.
  - destruct (Ascii.eqb c BACKSLASH) eqn:Hb; rewrite !str_app_cons; simpl.
    + by rewrite IH.
    + by rewrite Hq, Hb, IH.
Qed.

Lemma json_member_unfold (k v T : string) :
  json_member (k, v) +:+ T =
  String QUOTE (json_escape k +:+ String QUOTE
    (":" +:+ " " +:+ String QUOTE (json_escape v +:+ String QUOTE T))).
Proof. unfold json_member. rewrite !str_app_assoc. reflexivity. Qed.

Lemma parse_members_step (fuel : nat) (k v T : string) :
  parse_members (S fuel) (json_member (k, v) +:+ T) =
  match expect ", " T with
  | Some r5 => rest ← parse_members fuel r5; Some ((k, v) :: rest)
  | None => r6 ← expect "}" T; match r6 with EmptyString => Some [(k, v)] | _ => None end
  end.
Proof.
  assert (Hq : forall X, String QUOTE X = String QUOTE EmptyString +:+ X) by done.
  rewrite json_member_unfold. cbn [parse_members].
  rewrite (Hq (json_escape k +:+ _)), expect_app. simpl.
  rewrite parse_str_escape. simpl.
  rewrite parse_str_escape. reflexivity.
Qed.

Lemma json_members_cons2 (kv kv2 : string * string) (l : list (string * string)) :
  json_members (kv :: kv2 :: l) = json_member kv +:+ ", " +:+ json_members (kv2 :: l).
Proof. reflexivity. Qed.

Lemma json_member_length (kv : string * string) : 1 <= String.length (json_member kv).
Proof. destruct kv. unfold json_member. rewrite str_app_cons. simpl. lia. Qed.

Lemma json_members_length (l : list (string * string)) (T : string) :
  l <> [] -> length l <= String.length (json_members l +:+ T).
Proof.
  induction l as [|kv [|kv2 l] IH]; intros Hne; [done| |].
  - simpl. rewrite str_length_app. pose proof (json_member_length kv). lia.
  - rewrite json_members_cons2, !str_app_assoc, !str_length_app.
    specialize (IH ltac:(done)). rewrite str_length_app in IH.
    pose proof (json_member_length kv). simpl length in *. lia.
Qed.

Lemma parse_members_json (l : list (string * string)) (fuel : nat) :
  l <> [] -> length l <= fuel -> parse_members fuel (json_members l +:+ "}") = Some l.
Proof.
  revert fuel. induction l as [|[k v] [|kv2 l] IH]; intros fuel Hne Hf; [done| |].
  - destruct fuel as [|fuel]; [simpl in Hf; lia|].
    change (json_members [(k, v)]) with (json_member (k, v)).
    rewrite parse_members_step. reflexivity.
  - destruct fuel as [|fuel]; [simpl in Hf; lia|].
    rewrite json_members_cons2, !str_app_assoc, parse_members_step, expect_app.
    rewrite IH; [reflexivity|done|simpl in *; lia].
Qed.

Lemma json_members_head (l : list (string * string)) (T : string) :
  l <> [] -> exists Y, json_members l +:+ T = String QUOTE Y.
Proof.
  destruct l as [|[k v] [|kv2 l]]; intros Hne; [done| |].
  - eexists. change (json_members [(k, v)]) with (json_member (k, v)).
    apply json_member_unfold.
  - eexists. rewrite json_members_cons2, !str_app_assoc. apply json_member_unfold.
Qed.

Lemma parse_object_json (l : list (string * string)) :
  l <> [] -> parse_object (json_object l) = Some l.
Proof.
  intros Hne. unfold parse_object, json_object. rewrite expect_app.
  destruct (json_members_head l "}" Hne) as [Y HY].
  transitivity (parse_members (String.length (json_members l +:+ "}"))
                              (json_members l +:+ "}")).
  - simpl. rewrite HY. reflexivity.
  - apply parse_members_json; [done|]. by apply json_members_length.
Qed.

Lemma deserialize_serialize (f : fund) : deserialize_fund (serialize_fund f) = Some f.
Proof.
  unfold deserialize_fund, serialize_fund. rewrite parse_object_json by done.
  destruct f. reflexivity.
Qed.

Lemma set_fund_stores (f : fund) (st : store) :
  fst (_set_fund f st) !! FUND_KEY (SchemeName f) = Some (VStr (serialize_fund f)).
Proof.
  assert (Hne : FUND_AUTOCOMPLETER_KEY <> FUND_KEY (SchemeName f)) by key_neq.
  unfold _set_fund, r_set, ft_sugadd, bind. cbn [fst snd].
  destruct (_ !! FUND_AUTOCOMPLETER_KEY) as [[| |l]|]; cbn [fst];
    try case_decide; cbn [fst];
    rewrite ?lookup_insert_ne by done; apply lookup_insert_eq.
Qed.

(** C6: for every fund record [f] and every store, once [_set_fund f] has run,
    [get_fund] on [SchemeName f] succeeds, leaves the store as it is and
    returns a record equal to [f] in every field.  The [SET] of the record
    happens before the suggestion is registered, so this holds even when the
    autocompleter key holds a value of the wrong type. *)
Lemma C6_set_fund_get_fund_roundtrip (st : store) (f : fund) :
  get_fund (SchemeName f) (fst (_set_fund f st)) = (fst (_set_fund f st), Ok f).
Proof.
  pose proof (set_fund_stores f st) as H. unfold FUND_KEY in H.
  unfold get_fund, r_get, bind. rewrite H. cbn -[deserialize_fund serialize_fund]. rewrite deserialize_serialize. reflexivity.
Qed.

(* ------------------------------------------------------------------ *)
(** ** Concurrent rebuilds *)

Lemma gather_store (o : cache_op) (ops : list cache_op) (st : store) :
  fst (gather (o :: ops) st) = fst (gather ops (fst (run_op o st))).
Proof.
  simpl. destruct (run_op o st) as [st1 r1]. simpl.
  by destruct (gather ops st1).
Qed.

Lemma gather_error (ops : list cache_op) (st : store) (e : error) :
  snd (gather ops st) = Err e -> exists o st', o ∈ ops /\ snd (run_op o st') = Err e.
Proof.
  revert st. induction ops as [|o ops IH]; intros st H; [done|].
  simpl in H. destruct (run_op o st) as [st1 r1] eqn:E1.
  destruct (gather ops st1) as [st2 r2] eqn:E2. simpl in H.
  destruct r1 as [u|e1].
  - subst r2. destruct (IH st1) as (o' & st' & Hin & Ho); [by rewrite E2|].
    exists o', st'. split; [set_solver|done].
  - injection H as ->. exists o, st. split; [left|by rewrite E1].
Qed.

Lemma rebuild_run_all (ops : list cache_op) (c : rebuild_cfg) (i : nat) :
  cfg_running c !! i = Some ops ->
  rebuild_trace c (replicate (length ops) (EvRun i)) =
    Some (mkCfg (fst (gather ops (cfg_store c))) (<[i := []]> (cfg_running c))).
Proof.
  revert c. induction ops as [|o ops IH]; intros [st rs] Hi; simpl in *.
  - f_equal. f_equal. apply list_eq. intros j.
    destruct (decide (i = j)) as [->|Hne].
    + rewrite list_lookup_insert_eq; [done|]. by eapply lookup_lt_Some.
    + by rewrite list_lookup_insert_ne.
  - rewrite Hi. cbn [mbind option_bind].
    assert (Hlt : (i < length rs)%nat) by (by eapply lookup_lt_Some).
    rewrite IH; simpl.
    + destruct (run_op o st) as [st1 r1]. simpl.
      destruct (gather ops st1). simpl. by rewrite list_insert_insert_eq.
    + by rewrite list_lookup_insert_eq.
Qed.

Definition other_fund : fund :=
  mkFund "200" "XYZ Liquid Fund - Growth" "INF000B01" "INF000B02" "1000.0"
         "01-Jan-2020" "Open Ended" "Debt" "XYZ Mutual Fund".

Definition snapshot_a : snapshot :=
  [("Open Ended", [("Equity", [("ABC Mutual Fund", [one_fund])])])].

Definition snapshot_b : snapshot :=
  [("Open Ended", [("Debt", [("XYZ Mutual Fund", [other_fund])])])].

(** A first rebuild of [snapshot_a] issues one command; a second rebuild of
    [snapshot_b] is then started, is accepted, and writes the record of its
    fund while the first one still has four commands to issue. *)
Lemma C4_second_rebuild_interleaves :
  exists c1 c2 c3,
    rebuild_trace (mkCfg ∅ []) [EvStart snapshot_a; EvRun 0] = Some c1 /\
    rebuild_running c1 /\
    rebuild_step c1 (EvStart snapshot_b) = Some c2 /\
    rebuild_step c2 (EvRun 1) = Some c3 /\
    length (default [] (cfg_running c3 !! 0%nat)) = 4%nat /\
    cfg_store c3 !! FUND_KEY "XYZ Liquid Fund - Growth" =
      Some (VStr (serialize_fund (stamp other_fund "Open Ended" "Debt" "XYZ Mutual Fund"))).
Proof.
  do 3 eexists. split; [reflexivity|].
  split; [exists 0%nat; do 2 eexists; reflexivity|].
  split; [reflexivity|]. split; [reflexivity|].
  split; vm_compute; reflexivity.
Qed.

(** C4 (amended): [update_mf_cache] has no Running/Idle guard and no
    [RebuildInProgress] error.  A rebuild request is accepted in every
    configuration, also while other rebuilds are running, and queues its
    whole batch [redis_futures]; run without interruption, a batch has the
    effect of [update_mf_cache] on the store; and an invocation only fails
    with an error raised by one of its own Redis commands.  The commands of
    concurrent rebuilds therefore interleave freely. *)
Theorem C4_rebuild_not_guarded (c : rebuild_cfg) (parsed_funds : snapshot) :
  rebuild_step c (EvStart parsed_funds) =
    Some (mkCfg (cfg_store c) (cfg_running c ++ [redis_futures parsed_funds])) /\
  rebuild_trace (mkCfg (cfg_store c) (cfg_running c ++ [redis_futures parsed_funds]))
      (replicate (length (redis_futures parsed_funds)) (EvRun (length (cfg_running c)))) =
    Some (mkCfg (fst (update_mf_cache parsed_funds (cfg_store c)))
                (cfg_running c ++ [[]])) /\
  (forall st e, snd (update_mf_cache parsed_funds st) = Err e ->
     exists o st', o ∈ redis_futures parsed_funds /\ snd (run_op o st') = Err e).
Proof.
  split; [reflexivity|]. split.
  - rewrite rebuild_run_all.
    + simpl. rewrite insert_app_r_alt by lia. rewrite Nat.sub_diag. reflexivity.
    + simpl. rewrite lookup_app_r by lia. rewrite Nat.sub_diag. reflexivity.
  - intros st e. apply gather_error.
Qed.

Lemma C4_rebuild_not_guarded_witness :
  rebuild_step (mkCfg ∅ []) (EvStart snapshot_a) =
    Some (mkCfg ∅ [redis_futures snapshot_a]).
Proof. apply (C4_rebuild_not_guarded (mkCfg ∅ []) snapshot_a). Defined.

(* ------------------------------------------------------------------ *)
(** ** What a successful rebuild leaves in the store *)

Lemma gather_preserves (P : store -> Prop) (ops : list cache_op) :
  (forall o, o ∈ ops -> preserves P (run_op o)) -> preserves P (gather ops).
Proof.
  induction ops as [|o ops IH]; intros H st HP; [done|].
  rewrite gather_store. apply IH; [intros o' Ho'; apply H; set_solver|].
  apply H; [set_solver|done].
Qed.

Lemma gather_cons_ok (o : cache_op) (ops : list cache_op) (st : store) :
  snd (gather (o :: ops) st) = Ok tt ->
  snd (run_op o st) = Ok tt /\ snd (gather ops (fst (run_op o st))) = Ok tt.
Proof.
  simpl. destruct (run_op o st) as [st1 [[]|e]]; simpl; destruct (gather ops st1) as [st2 r2];
    simpl; intros H; [by split|discriminate].
Qed.

(** A property that the [i]-th command of a successful batch establishes,
    and that every later command keeps, holds at the end of the batch. *)
Lemma gather_establish (P : store -> Prop) (ops1 : list cache_op) (o : cache_op)
    (ops2 : list cache_op) (st : store) :
  (forall st0, snd (run_op o st0) = Ok tt -> P (fst (run_op o st0))) ->
  (forall o', o' ∈ ops2 -> preserves P (run_op o')) ->
  snd (gather (ops1 ++ o :: ops2) st) = Ok tt -> P (fst (gather (ops1 ++ o :: ops2) st)).
Proof.
  revert st. induction ops1 as [|o1 ops1 IH]; intros st Hest Hpres Hok; cbn [app] in *.
  - apply gather_cons_ok in Hok as [H1 H2]. rewrite gather_store.
    apply gather_preserves; [done|]. by apply Hest.
  - apply gather_cons_ok in Hok as [H1 H2]. rewrite gather_store. by apply IH.
Qed.

Lemma bind_establish (P : store -> Prop) {B} (m : M unit) (k : unit -> M B) (b : B)
    (st : store) :
  (forall st0, snd (m st0) = Ok tt -> P (fst (m st0))) ->
  (forall a, preserves P (k a)) ->
  snd (bind m k st) = Ok b -> P (fst (bind m k st)).
Proof.
  intros Hm Hk. specialize (Hm st). unfold bind.
  destruct (m st) as [st1 [a|e]]; simpl in *; intros H; [|discriminate].
  apply Hk. destruct a. by apply Hm.
Qed.

Lemma r_sadd_establishes (k : string) (names : list string) (x : string) (st : store) :
  x ∈ names -> snd (r_sadd k names st) = Ok tt -> set_mem k x (fst (r_sadd k names st)).
Proof.
  intros Hx. unfold r_sadd. destruct names as [|n names]; [set_solver|].
  destruct (st !! k) as [[s|s|l]|]; simpl; intros H; try discriminate;
    eexists; (split; [apply lookup_insert_eq|set_solver]).
Qed.

Lemma add_op_establishes (o : cache_op) (key : string) (names : list string) (x : string)
    (st : store) :
  add_op_target o = Some (key, names) -> x ∈ names ->
  snd (run_op o st) = Ok tt -> set_mem key x (fst (run_op o st)).
Proof.
  intros Ht Hx. destruct o as [f|sub h ns|h ns|t sub hs|t subs]; simplify_eq/=;
    unfold _add_fund_house_under_sub_type, _add_fund_house, _add_scheme_sub_type,
      _add_scheme_type.
  all: try (apply bind_establish; [intros; by apply r_sadd_establishes
                                   |intros; apply ft_sugadd_preserves_mem]).
  by apply r_sadd_establishes.
Qed.

(** A command that leaves the value at a key alone. *)
Definition keeps {A} (k : string) (m : M A) : Prop :=
  forall st, fst (m st) !! k = st !! k.

Lemma bind_keeps {A B} (k : string) (m : M A) (k' : A -> M B) :
  keeps k m -> (forall a, keeps k (k' a)) -> keeps k (bind m k').
Proof.
  intros Hm Hk st. unfold bind. rewrite <- (Hm st).
  destruct (m st) as [st1 [a|e]]; simpl; [apply Hk|done].
Qed.

Lemma ft_sugadd_keeps (ack s k : string) : ack <> k -> keeps k (ft_sugadd ack s).
Proof.
  intros Hne st. unfold ft_sugadd.
  destruct (st !! ack) as [[]|]; simpl; try case_decide; simpl; try done;
    by rewrite lookup_insert_ne.
Qed.

Lemma r_sadd_keeps (k' k : string) (names : list string) : k' <> k -> keeps k (r_sadd k' names).
Proof. intros Hne st. by apply r_sadd_other. Qed.

Lemma fund_key_inj (a b : string) : FUND_KEY a = FUND_KEY b -> a = b.
Proof. unfold FUND_KEY. intros H. by do 2 apply str_app_inj in H. Qed.

Lemma run_op_keeps_fund (o : cache_op) (n : string) :
  (forall g, o = SetFund g -> SchemeName g <> n) -> keeps (FUND_KEY n) (run_op o).
Proof.
  intros Hg. destruct o as [g|sub h ns|h ns|t sub hs|t subs]; cbn [run_op];
    unfold _set_fund, _add_fund_house_under_sub_type, _add_fund_house,
      _add_scheme_sub_type, _add_scheme_type;
    repeat apply bind_keeps; intros;
    try (apply ft_sugadd_keeps; key_neq); try (apply r_sadd_keeps; key_neq).
  intros st. unfold r_set. simpl. apply lookup_insert_ne.
  intros Heq. apply (Hg g); [done|]. by apply fund_key_inj.
Qed.

(** The (scheme type, sub type, fund house, fund) quadruples of a
    snapshot, in iteration order. *)
Definition snapshot_entries (parsed_funds : snapshot) : list (string * string * string * fund) :=
  concat (map (fun ts =>
    concat (map (fun sh =>
      concat (map (fun hf => map (fun f => (ts.1, sh.1, hf.1, f)) hf.2) sh.2)) ts.2))
    parsed_funds).

(** SchemeName is the key of a fund: two quadruples of the snapshot with
    the same fund name are the same quadruple. *)
Definition scheme_names_unique (parsed_funds : snapshot) : Prop :=
  forall e1 e2, e1 ∈ snapshot_entries parsed_funds -> e2 ∈ snapshot_entries parsed_funds ->
    SchemeName e1.2 = SchemeName e2.2 -> e1 = e2.

Lemma elem_of_concat_map {A B} (f : A -> list B) (l : list A) (x : B) :
  x ∈ concat (map f l) <-> exists y, y ∈ l /\ x ∈ f y.
Proof.
  induction l as [|a l IH]; simpl.
  - split; [set_solver|]. intros (y & Hy & _). set_solver.
  - rewrite elem_of_app, IH. setoid_rewrite elem_of_cons. naive_solver.
Qed.

Lemma elem_of_map_iff {A B} (f : A -> B) (l : list A) (y : B) :
  y ∈ map f l <-> exists x, y = f x /\ x ∈ l.
Proof.
  rewrite list_elem_of_In, in_map_iff. setoid_rewrite list_elem_of_In. naive_solver.
Qed.

Lemma snapshot_entries_spec (parsed_funds : snapshot) (t sub h : string) (f : fund) :
  (t, sub, h, f) ∈ snapshot_entries parsed_funds <->
  exists subs hs fs, (t, subs) ∈ parsed_funds /\ (sub, hs) ∈ subs /\ (h, fs) ∈ hs /\ f ∈ fs.
Proof.
  unfold snapshot_entries.
  repeat (setoid_rewrite elem_of_concat_map; cbv beta).
  setoid_rewrite elem_of_map_iff. split.
  - intros ([t' subs] & Ht & [sub' hs] & Hs & [h' fs] & Hh & f' & Heq & Hf).
    simplify_eq/=. eauto 10.
  - intros (subs & hs & fs & Ht & Hs & Hh & Hf).
    exists (t, subs). split; [done|]. exists (sub, hs). split; [done|].
    exists (h, fs). split; [done|]. by exists f.
Qed.

Lemma redis_futures_spec (parsed_funds : snapshot) (o : cache_op) :
  o ∈ redis_futures parsed_funds <->
  exists t subs, (t, subs) ∈ parsed_funds /\
    (o = AddSchemeType t (map fst subs) \/
     exists sub hs, (sub, hs) ∈ subs /\
       (o = AddSchemeSubType t sub (map fst hs) \/
        exists h fs, (h, fs) ∈ hs /\
          (o = AddFundHouseUnderSubType sub h (map SchemeName fs) \/
           o = AddFundHouse h (map SchemeName fs) \/
           exists f, f ∈ fs /\ o = SetFund (stamp f t sub h)))).
Proof.
  unfold redis_futures, scheme_type_ops, scheme_sub_type_ops, fund_house_ops.
  repeat (setoid_rewrite elem_of_concat_map; cbv beta; setoid_rewrite elem_of_app).
  setoid_rewrite elem_of_map_iff.
  repeat setoid_rewrite elem_of_cons. split.
  - intros ([t subs] & Ht & H). exists t, subs. split; [done|]. simpl in H.
    destruct H as [([sub hs] & Hs & H)|[H|H]]; [right|subst o; by left|set_solver].
    exists sub, hs. split; [done|]. simpl in H.
    destruct H as [([h fs] & Hh & H)|[H|H]]; [right|subst o; by left|set_solver].
    exists h, fs. split; [done|]. simpl in H.
    destruct H as [(f & Hf1 & Hf)|[H|[H|H]]]; try set_solver; subst o; naive_solver.
  - intros (t & subs & Ht & H). exists (t, subs). split; [done|]. simpl.
    destruct H as [Ho|(sub & hs & Hs & H)]; [subst o; by right; left|left].
    exists (sub, hs). split; [done|]. simpl.
    destruct H as [Ho|(h & fs & Hh & H)]; [subst o; by right; left|left].
    exists (h, fs). split; [done|]. simpl.
    destruct H as [Ho|[Ho|(f & Hf & Ho)]]; subst o;
      [by right; left|by right; right; left|left].
    by exists f.
Qed.

Lemma setfund_in_futures (parsed_funds : snapshot) (g : fund) :
  SetFund g ∈ redis_futures parsed_funds ->
  exists t sub h f, (t, sub, h, f) ∈ snapshot_entries parsed_funds /\ g = stamp f t sub h.
Proof.
  intros (t & subs & Ht & H)%redis_futures_spec.
  destruct H as [H|(sub & hs & Hs & [H|(h & fs & Hh & [H|[H|(f & Hf & H)]])])];
    try discriminate.
  injection H as ->. exists t, sub, h, f. split; [|done].
  apply snapshot_entries_spec. eauto 10.
Qed.

Lemma entry_ops (parsed_funds : snapshot) (t sub h : string) (f : fund) :
  (t, sub, h, f) ∈ snapshot_entries parsed_funds ->
  SetFund (stamp f t sub h) ∈ redis_futures parsed_funds /\
  (exists names, AddFundHouse h names ∈ redis_futures parsed_funds /\ SchemeName f ∈ names) /\
  (exists names, AddFundHouseUnderSubType sub h names ∈ redis_futures parsed_funds /\
                 SchemeName f ∈ names) /\
  (exists hs, AddSchemeSubType t sub hs ∈ redis_futures parsed_funds /\ h ∈ hs) /\
  (exists subs, AddSchemeType t subs ∈ redis_futures parsed_funds /\ sub ∈ subs).
Proof.
  intros (subs & hs & fs & Ht & Hs & Hh & Hf)%snapshot_entries_spec.
  setoid_rewrite redis_futures_spec.
  assert (Hfs : SchemeName f ∈ map SchemeName fs) by (apply elem_of_map_iff; eauto).
  split; [|split; [|split; [|split]]].
  - exists t, subs. split; [done|]. right. exists sub, hs. split; [done|].
    right. exists h, fs. split; [done|]. right; right. by exists f.
  - exists (map SchemeName fs). split; [|done]. exists t, subs. split; [done|].
    right. exists sub, hs. split; [done|]. right. exists h, fs. split; [done|]. by right; left.
  - exists (map SchemeName fs). split; [|done]. exists t, subs. split; [done|].
    right. exists sub, hs. split; [done|]. right. exists h, fs. split; [done|]. by left.
  - exists (map fst hs). split.
    + exists t, subs. split; [done|]. right. exists sub, hs. split; [done|]. by left.
    + apply elem_of_map_iff. by exists (h, fs).
  - exists (map fst subs). split.
    + exists t, subs. split; [done|]. by left.
    + apply elem_of_map_iff. by exists (sub, hs).
Qed.

Lemma add_op_reached (ops : list cache_op) (st : store) (o : cache_op) (key : string)
    (names : list string) (x : string) :
  snd (gather ops st) = Ok tt -> o ∈ ops -> add_op_target o = Some (key, names) ->
  x ∈ names -> (forall g, SetFund g ∈ ops -> FUND_KEY (SchemeName g) <> key) ->
  set_mem key x (fst (gather ops st)).
Proof.
  intros Hok Ho Ht Hx Hf. apply list_elem_of_split in Ho as (ops1 & ops2 & ->).
  apply gather_establish; [|intros o' Ho'|done].
  - intros st0. by eapply add_op_establishes.
  - apply run_op_preserves_mem. intros g ->. apply Hf. set_solver.
Qed.

Lemma fund_key_reached (parsed_funds : snapshot) (st : store) (t sub h : string) (f : fund) :
  scheme_names_unique parsed_funds ->
  snd (gather (redis_futures parsed_funds) st) = Ok tt ->
  (t, sub, h, f) ∈ snapshot_entries parsed_funds ->
  fst (gather (redis_futures parsed_funds) st) !! FUND_KEY (SchemeName f) =
    Some (VStr (serialize_fund (stamp f t sub h))).
Proof.
  intros Hu Hok Hin. destruct (entry_ops _ _ _ _ _ Hin) as [Hset _].
  pose proof Hset as (ops1 & ops2 & Heq)%list_elem_of_split. rewrite Heq in Hok |- *.
  apply (gather_establish
    (fun s => s !! FUND_KEY (SchemeName f) = Some (VStr (serialize_fund (stamp f t sub h)))));
    [intros st0 _; apply (set_fund_stores (stamp f t sub h))| |done].
  intros o' Ho' st0 HP.
  assert (Hin' : o' ∈ redis_futures parsed_funds) by (rewrite Heq; set_solver).
  destruct o' as [g| | | |];
    [destruct (decide (SchemeName g = SchemeName f)) as [Hg|Hg]| | | |];
    try (match goal with |- context [run_op ?o st0] =>
           rewrite (run_op_keeps_fund o (SchemeName f)
                      ltac:(intros ? Hq; discriminate Hq) st0) end; done).
  - destruct (setfund_in_futures _ _ Hin') as (t' & sub' & h' & f' & Hin2 & ->).
    assert (He : (t', sub', h', f') = (t, sub, h, f)) by (apply Hu; auto).
    simplify_eq. apply (set_fund_stores (stamp f t sub h)).
  - rewrite (run_op_keeps_fund (SetFund g) (SchemeName f) ltac:(intros g0 Hq; injection Hq; intros; subst; done) st0). done.
Qed.

(** The fund [f], found under type [t], sub type [sub] and house [h], is
    reachable at all four levels of the hierarchy in [st]. *)
Definition fund_reachable (st : store) (t sub h : string) (f : fund) : Prop :=
  st !! FUND_KEY (SchemeName f) = Some (VStr (serialize_fund (stamp f t sub h))) /\
  set_mem (FUND_HOUSE_PREFIX +:+ PREFIX_DELIMTER +:+ h) (SchemeName f) st /\
  set_mem (SCHEME_SUB_TYPE_FUND_HOUSE_PREFIX +:+ PREFIX_DELIMTER +:+ sub +:+
           PREFIX_DELIMTER +:+ h) (SchemeName f) st /\
  set_mem (SCHEME_SUB_TYPE_PREFIX +:+ PREFIX_DELIMTER +:+ t +:+ PREFIX_DELIMTER +:+ sub) h st /\
  set_mem (SCHEME_TYPE_PREFIX +:+ PREFIX_DELIMTER +:+ t) sub st.

(** C1: when [update_mf_cache] on a snapshot whose fund names are unique
    (SchemeName is the key of a fund) completes without error, every fund
    [f] of every quadruple [(t, sub, h, f)] of the snapshot is stored,
    stamped with [t], [sub] and [h], at [FUND:<SchemeName>]; its name is in
    the sets [FUND_HOUSE:<h>] and [SCHEME_SUB_TYPE_FUND_HOUSE:<sub>:<h>];
    [h] is in [SCHEME_SUB_TYPE:<t>:<sub>]; and [sub] is in [SCHEME_TYPE:<t>]. *)
Theorem C1_rebuild_reaches_funds (parsed_funds : snapshot) (st st' : store) :
  scheme_names_unique parsed_funds ->
  update_mf_cache parsed_funds st = (st', Ok tt) ->
  forall t sub h f, (t, sub, h, f) ∈ snapshot_entries parsed_funds ->
    fund_reachable st' t sub h f.
Proof.
  intros Hu Hrun t sub h f Hin.
  unfold update_mf_cache, _async_update_mf_cache in Hrun.
  assert (Hok : snd (gather (redis_futures parsed_funds) st) = Ok tt) by (by rewrite Hrun).
  replace st' with (fst (gather (redis_futures parsed_funds) st)) by (by rewrite Hrun).
  destruct (entry_ops _ _ _ _ _ Hin)
    as (_ & (n1 & Hn1 & Hx1) & (n2 & Hn2 & Hx2) & (hs & Hhs & Hxh) & (subs & Hsubs & Hxs)).
  split; [by apply fund_key_reached|].
  split; [|split; [|split]].
  - eapply add_op_reached; [done|exact Hn1|reflexivity|done|intros g _; key_neq].
  - eapply add_op_reached; [done|exact Hn2|reflexivity|done|intros g _; key_neq].
  - eapply add_op_reached; [done|exact Hhs|reflexivity|done|intros g _; key_neq].
  - eapply add_op_reached; [done|exact Hsubs|reflexivity|done|intros g _; key_neq].
Qed.

Lemma C1_rebuild_reaches_funds_witness :
  fund_reachable (fst (update_mf_cache snapshot_a ∅))
    "Open Ended" "Equity" "ABC Mutual Fund" one_fund.
Proof.
  apply (C1_rebuild_reaches_funds snapshot_a ∅ (fst (update_mf_cache snapshot_a ∅))).
  - assert (E : snapshot_entries snapshot_a =
                [("Open Ended", "Equity", "ABC Mutual Fund", one_fund)]) by reflexivity.
    unfold scheme_names_unique. rewrite E. intros e1 e2 H1 H2 _. set_solver.
  - vm_compute. reflexivity.
  - apply snapshot_entries_spec.
    exists [("Equity", [("ABC Mutual Fund", [one_fund])])], [("ABC Mutual Fund", [one_fund])],
      [one_fund].
    split; [|split; [|split]]; by apply list_elem_of_singleton.
Defined.

(* ------------------------------------------------------------------ *)
(** ** The HTTP routes of app.py *)

Lemma ft_sugget_readonly (ack query : string) (fuzzy : bool) (num : nat) (st : store) :
  fst (ft_sugget ack query fuzzy num st) = st.
Proof. unfold ft_sugget. by destruct (st !! ack) as [[]|]. Qed.

Lemma search_readonly (qt q : string) (st : store) : fst (search qt q st) = st.
Proof.
  unfold search, bind. destruct (ac_lookup qt AC_TYPES); [|done].
  pose proof (ft_sugget_readonly (ac_key a) (_query (ac_prefix a) q) ENABLE_FUZZY
                GET_SUGGESTIONS_NUM st) as H.
  destruct (ft_sugget _ _ _ _ st) as [st' [r|e]]; simpl in *; by subst.
Qed.

(** The search route never writes to Redis, and every failure it reports
    is an HTTP 400. *)
Lemma search_nav_cache_readonly_400 (py_str : error -> string) (q_type : string)
    (q : option string) (st : store) :
  fst (search_nav_cache py_str q_type q st) = st /\
  (forall e, snd (search_nav_cache py_str q_type q st) = Err e ->
     exists detail, e = HTTPException 400 detail).
Proof.
  unfold search_nav_cache. case_decide.
  - pose proof (search_readonly q_type (py_format_opt q) st) as Hro.
    destruct (search q_type (py_format_opt q) st) as [st' [r|e]]; simpl in *;
      (split; [done|]); intros e' He; [discriminate|]. injection He as <-. eauto.
  - split; [done|]. intros e He. injection He as <-. eauto.
Qed.

(** [POST /api/v1/fund] on a name with no record answers 400
    [Invalid Fund Name: <name>]. *)
Lemma fetch_fund_absent (key : string) (st : store) :
  st !! FUND_KEY key = None ->
  fetch_fund key st = (st, Err (HTTPException 400 ("Invalid Fund Name: " +:+ key))).
Proof. intros H. unfold fetch_fund. rewrite get_fund_absent by done. reflexivity. Qed.

Lemma fetch_fund_absent_witness :
  fetch_fund "XYZ Fund" ∅ = (∅, Err (HTTPException 400 ("Invalid Fund Name: " +:+ "XYZ Fund"))).
Proof. apply fetch_fund_absent. reflexivity. Defined.

(** Once [_set_fund f] has run, [POST /api/v1/fund] with the fund's name
    answers the six declared fields of [f]. *)
Lemma fetch_fund_after_set_fund (f : fund) (st : store) :
  fetch_fund (SchemeName f) (fst (_set_fund f st)) =
    (fst (_set_fund f st), Ok (fund_response_of f)).
Proof.
  pose proof (set_fund_stores f st) as H. unfold FUND_KEY in H.
  unfold fetch_fund, get_fund, r_get, bind. rewrite H.
  cbn -[deserialize_fund serialize_fund]. rewrite deserialize_serialize. reflexivity.
Qed.

(** [POST /api/v1/fund] fails only in three ways: a missing record (a 400
    with [Invalid Fund Name: <name>]), or, with a value present, a value
    that is not a string or does not decode; those two are not caught and
    leave the handler as server errors. *)
Lemma fetch_fund_failures (key : string) (st : store) (e : error) :
  snd (fetch_fund key st) = Err e ->
  (st !! FUND_KEY key = None /\ e = HTTPException 400 (fund_key_not_found_str key)) \/
  (exists v, st !! FUND_KEY key = Some v /\ (e = WrongType \/ e = DecodeError)).
Proof.
  unfold fetch_fund, get_fund, r_get, bind, FUND_KEY.
  destruct (st !! _) as [[s| |]|] eqn:E; simpl.
  - destruct (deserialize_fund s); simpl; intros He; [discriminate|].
    injection He as <-. right. eauto.
  - intros He. injection He as <-. right. eauto.
  - intros He. injection He as <-. right. eauto.
  - intros He. injection He as <-. left. done.
Qed.

Definition wrong_type_fund_store : store := <[FUND_KEY "XYZ Fund" := VSet ∅]> ∅.

Lemma fetch_fund_failures_witness :
  snd (fetch_fund "XYZ Fund" wrong_type_fund_store) = Err WrongType /\
  ((wrong_type_fund_store !! FUND_KEY "XYZ Fund" = None /\
    WrongType = HTTPException 400 (fund_key_not_found_str "XYZ Fund")) \/
   (exists v, wrong_type_fund_store !! FUND_KEY "XYZ Fund" = Some v /\
      (WrongType = WrongType \/ WrongType = DecodeError))).
Proof. split; [reflexivity|]. apply fetch_fund_failures. reflexivity. Defined.

(** [POST /api/v1/fund_house] never answers 400: a fund house without a
    set answers the empty list, a set answers its members, each once, and
    the only failure is a value of another type at the key. *)
Lemma fetch_fund'_result (key scheme_sub_type : string) (st : store) :
  (st !! (FUND_HOUSE_PREFIX +:+ PREFIX_DELIMTER +:+ key) = None ->
     fetch_fund' key scheme_sub_type st = (st, Ok [])) /\
  (forall s, st !! (FUND_HOUSE_PREFIX +:+ PREFIX_DELIMTER +:+ key) = Some (VSet s) ->
     exists l, fetch_fund' key scheme_sub_type st = (st, Ok l) /\ NoDup l /\
       forall x, x ∈ l <-> x ∈ s) /\
  (forall e, snd (fetch_fund' key scheme_sub_type st) = Err e -> e = WrongType).
Proof.
  unfold fetch_fund', get_fund_house, r_smembers, bind.
  split; [|split].
  - intros H. rewrite H. simpl. by rewrite elements_empty.
  - intros s H. rewrite H. exists (elements s). split; [done|].
    split; [apply NoDup_elements|]. intros x. apply elem_of_elements.
  - destruct (st !! _) as [[]|]; simpl; intros e He; first [discriminate | by injection He].
Qed.

(** After [_add_fund_house h names] with a non-empty [names], on a store
    whose [FUND_HOUSE:<h>] key is absent or a set and whose fund house
    autocompleter is absent or a dictionary, [POST /api/v1/fund_house]
    for [h] lists exactly the former members and [names]. *)
Lemma fetch_fund'_after_add_fund_house (h scheme_sub_type : string) (names : list string)
    (st : store) :
  names <> [] ->
  set_slot_ok st (FUND_HOUSE_PREFIX +:+ PREFIX_DELIMTER +:+ h) ->
  sug_slot_ok st FUND_HOUSE_AUTOCOMPLETER_KEY ->
  exists l, fetch_fund' h scheme_sub_type (fst (_add_fund_house h names st)) =
              (fst (_add_fund_house h names st), Ok l) /\
    forall x, x ∈ l <-> x ∈ old_set st (FUND_HOUSE_PREFIX +:+ PREFIX_DELIMTER +:+ h) \/ x ∈ names.
Proof.
  intros Hne Hset Hsug.
  destruct (add_op_success (AddFundHouse h names) _ names FUND_HOUSE_AUTOCOMPLETER_KEY
              (FUND_HOUSE_PREFIX +:+ PREFIX_DELIMTER +:+ h) st eq_refl eq_refl Hne Hset Hsug)
    as (_ & Hk & _).
  change (run_op (AddFundHouse h names) st) with (_add_fund_house h names st) in Hk.
  destruct (proj1 (proj2 (fetch_fund'_result h scheme_sub_type (fst (_add_fund_house h names st))))
              _ Hk) as (l & Hl & _ & Hx).
  exists l. split; [done|]. intros x. rewrite Hx, elem_of_union, elem_of_list_to_set. done.
Qed.

Lemma fetch_fund'_after_add_fund_house_witness :
  exists l, fetch_fund' "ABC Mutual Fund" "Equity"
              (fst (_add_fund_house "ABC Mutual Fund" ["ABC Equity Fund - Growth"] ∅)) =
            (fst (_add_fund_house "ABC Mutual Fund" ["ABC Equity Fund - Growth"] ∅), Ok l) /\
    forall x, x ∈ l <-> x ∈ old_set ∅ (FUND_HOUSE_PREFIX +:+ PREFIX_DELIMTER +:+ "ABC Mutual Fund")
                        \/ x ∈ ["ABC Equity Fund - Growth"].
Proof.
  apply fetch_fund'_after_add_fund_house; [discriminate|vm_compute; exact I|vm_compute; exact I].
Defined.

(* ------------------------------------------------------------------ *)
(** ** Fund listing after a write *)

















(* ------------------------------------------------------------------ *)
(** ** What a rebuild leaves in place *)
















(* ------------------------------------------------------------------ *)
(** ** A rebuild over an empty group *)






(* ------------------------------------------------------------------ *)
(** ** Running a rebuild twice *)



































